(** * GoalieScout: the movement analytics and ranking pipeline

    A shallow embedding of [src/reports/generator.py] (tier classifier,
    rank aggregator, batch summary), of the [generate_score] methods of
    [src/ai_providers/*.py] and of the kinematic metrics of
    [src/metrics/movement.py], followed by the properties the
    specification states about them.

    Conventions.
    - Python [int] is [Z]; [str] is [string]; a [dict] with string keys is
      a [gmap string value]; [np.float64] is Rocq's primitive binary64
      [float], whose operations are the IEEE 754 ones the code runs.
    - Report dictionaries are mutable and shared: they live in a [heap]
      and lists hold their addresses, so that aliasing is visible.
    - A Python exception is a [Raise] result. *)

From Stdlib Require Import ZArith QArith Qabs Qpower Lia Lqa Ascii.
From Stdlib Require Import Floats.PrimFloat Floats.SpecFloat Floats.FloatOps Floats.FloatAxioms.
From stdpp Require Import gmap strings list sorting.

Local Open Scope Z_scope.

(* ===================================================================== *)
(** * Part I: the embedding *)
(* ===================================================================== *)

(** ** Python values, objects and exceptions *)

Module Py.

(** the address of a mutable object (Python's [id]) *)
Abbreviation loc := positive.

(** the values stored in a report: ints, strings and references to
    other objects (the [metrics] dictionary) *)
Inductive value : Type :=
| VInt (n : Z)
| VStr (s : string)
| VRef (l : loc).

#[export] Instance value_eq_dec : EqDecision value.
Proof. solve_decision. Defined.

Definition value_enc (v : value) : Z + string + positive :=
  match v with
  | VInt n => inl (inl n)
  | VStr s => inl (inr s)
  | VRef l => inr l
  end.

Definition value_dec (x : Z + string + positive) : value :=
  match x with
  | inl (inl n) => VInt n
  | inl (inr s) => VStr s
  | inr l => VRef l
  end.

#[export] Instance value_countable : Countable value.
Proof.
  refine (inj_countable' value_enc value_dec _).
  intros []; reflexivity.
Defined.

Inductive exn : Type :=
| KeyError (k : string)     (* d[k] on a dict without k *)
| TypeError                 (* wrong kind of value *)
| ValueError                (* int() refusing its argument *)
| ZeroDivisionError
| OverflowError             (* a quotient beyond the largest double *)
| IndexError                (* a[i] beyond the end of a *)
| Dangling (l : loc).       (* an address outside the heap: ill-formed store *)

Inductive result (A : Type) : Type :=
| Ok (a : A)
| Raise (e : exn).
Arguments Ok {A} a.
Arguments Raise {A} e.

#[export] Instance exn_eq_dec : EqDecision exn.
Proof. solve_decision. Defined.

#[export] Instance result_eq_dec `{EqDecision A} : EqDecision (result A).
Proof. solve_decision. Defined.

#[export] Instance result_ret : MRet result := λ A a, Ok a.

#[export] Instance result_bind : MBind result := λ A B f m,
  match m with
  | Ok a => f a
  | Raise e => Raise e
  end.

(** [try: m except Exception: d] *)
Definition try_except {A} (m : result A) (d : A) : A :=
  match m with
  | Ok a => a
  | Raise _ => d
  end.

(** [[f(x) for x in l]], stopping at the first exception *)
Fixpoint map_result {A B} (f : A → result B) (l : list A) : result (list B) :=
  match l with
  | [] => Ok []
  | x :: l' => y ← f x; ys ← map_result f l'; Ok (y :: ys)
  end.

(** [for x in l: acc = f(acc, x)], stopping at the first exception *)
Fixpoint fold_result {A S} (f : S → A → result S) (s : S) (l : list A)
  : result S :=
  match l with
  | [] => Ok s
  | x :: l' => s' ← f s x; fold_result f s' l'
  end.

(** [d[k]] *)
Definition getitem (d : gmap string value) (k : string) : result value :=
  match d !! k with
  | Some v => Ok v
  | None => Raise (KeyError k)
  end.

(** the object stored at an address *)
Definition deref (h : gmap loc (gmap string value)) (l : loc)
  : result (gmap string value) :=
  match h !! l with
  | Some d => Ok d
  | None => Raise (Dangling l)
  end.

(** [enumerate(l, start)] *)
Fixpoint enumerate {A} (start : Z) (l : list A) : list (Z * A) :=
  match l with
  | [] => []
  | x :: l' => (start, x) :: enumerate (start + 1) l'
  end.

End Py.

Import Py.

(** ** [sorted(l, key=..., reverse=True)]

    Python guarantees that [sorted] is stable, also with [reverse=True]:
    elements with equal keys keep their original order.  The model is the
    stable insertion sort on integer keys, largest key first; lemma
    [sorted_desc_unique] below shows that any other stable descending
    sort computes the same list.  [sorted_reverse], further down, is
    the same sort on stored values compared with Python's [<]. *)

Section SortedDesc.
Context {A : Type} (key : A → Z).

Fixpoint insert_desc (x : A) (l : list A) : list A :=
  match l with
  | [] => [x]
  | y :: l' =>
      if key x <? key y then y :: insert_desc x l' else x :: y :: l'
  end.

Definition sorted_desc (l : list A) : list A := foldr insert_desc [] l.

(** descending order of the keys *)
Definition desc (a b : A) : Prop := key b ≤ key a.

(** the elements that carry one given key *)
Definition with_key (s : Z) (l : list A) : list A :=
  filter (λ a, key a = s) l.

End SortedDesc.

(** ** Python's true division of two ints

    [a / b] on ints returns the double nearest to the exact quotient
    (ties to even), computed from the integers themselves, and raises
    [OverflowError] when that is beyond the largest double.  A double is
    kept as the rational number it denotes. *)

Module PyFloat.

(** the integer nearest to [N / D], ties to even *)
Definition rne (N D : Z) : Z :=
  let f := N / D in
  match 2 * (N mod D) ?= D with
  | Lt => f
  | Gt => f + 1
  | Eq => if Z.even f then f else f + 1
  end.

(** numerator and denominator of [(a / b) / 2^e] *)
Definition scaled (a b e : Z) : Z * Z :=
  if 0 <=? e then (a, b * 2 ^ e) else (a * 2 ^ (- e), b).

(** the exponent of the last bit of the double nearest to [a / b]:
    53 significant bits, and no bit below 2^-1074 *)
Definition double_exponent (a b : Z) : Z :=
  let e := Z.log2 a - Z.log2 b - 53 in
  let '(N, D) := scaled a b e in
  Z.max (if N <? D * 2 ^ 53 then e else e + 1) (-1074).

(** the double nearest to [a / b], for positive [a] and [b] *)
Definition nearest_double (a b : Z) : Q :=
  let e := double_exponent a b in
  let '(N, D) := scaled a b e in
  (inject_Z (rne N D) * 2 ^ e)%Q.

Definition truediv (a b : Z) : result Q :=
  if b =? 0 then Raise ZeroDivisionError
  else if a =? 0 then Ok 0%Q
  else
    let v := nearest_double (Z.abs a) (Z.abs b) in
    if Qle_bool (2 ^ 1024)%Q v then Raise OverflowError
    else Ok (if Z.sgn a * Z.sgn b <? 0 then (- v)%Q else v).

End PyFloat.

(** ** [src/reports/generator.py] *)

Module Generator.

(** The capability interface [AIProvider]: two methods over a prompt.
    The prompt is an f-string over the metrics (float formatting); it
    is passed through to the capability and never inspected by the
    code modelled here, so its type is left open. *)
Record AIProvider (prompt : Type) : Type := {
  generate_report : prompt → string;
  generate_score : prompt → Z
}.
Arguments generate_report {prompt} _ _.
Arguments generate_score {prompt} _ _.

(** [ReportGenerator._score_to_tier] *)
Definition _score_to_tier (score : Z) : string :=
  if score >=? 90 then "S"
  else if score >=? 80 then "A"
  else if score >=? 70 then "B"
  else if score >=? 60 then "C"
  else if score >=? 50 then "D"
  else "F".

(** [ReportGenerator.generate_player_report]: the new report
    dictionary.  [metrics] is the address of the metrics dictionary. *)
Definition generate_player_report {prompt : Type}
    (generate_player_prompt : string → string → loc → prompt)
    (ai_provider : AIProvider prompt)
    (player_name position : string) (metrics : loc)
  : gmap string value :=
  let prompt := generate_player_prompt player_name position metrics in
  let scouting_notes := generate_report ai_provider prompt in
  let score := generate_score ai_provider prompt in
  let tier := _score_to_tier score in
  <["player_name" := VStr player_name]>
  (<["position" := VStr position]>
  (<["metrics" := VRef metrics]>
  (<["scouting_notes" := VStr scouting_notes]>
  (<["score" := VInt score]>
  (<["tier" := VStr tier]> ∅))))).

(** the sort key [lambda x: x['score']]: the stored value, whatever it
    is *)
Definition sort_key (h : gmap loc (gmap string value)) (l : loc)
  : result value :=
  d ← deref h l;
  getitem d "score".

(** [a < b]: ints by value, strings by code points (the order of their
    UTF-8 bytes); an int against a string, or a dictionary against
    anything, is a [TypeError] *)
Definition py_lt (a b : value) : result bool :=
  match a, b with
  | VInt x, VInt y => Ok (x <? y)
  | VStr x, VStr y => Ok (String.ltb x y)
  | _, _ => Raise TypeError
  end.

(** [sorted(..., reverse=True)] on elements decorated with their keys:
    the stable sort, largest key first, with the comparisons made by
    [<] on the keys.  A list of one element is compared with nothing;
    in a longer list every element is compared with another one, so
    that keys that cannot be compared raise. *)
Fixpoint insert_reverse {A} (x : value * A) (l : list (value * A))
  : result (list (value * A)) :=
  match l with
  | [] => Ok [x]
  | y :: l' =>
      b ← py_lt x.1 y.1;
      if b : bool then r ← insert_reverse x l'; Ok (y :: r)
      else Ok (x :: y :: l')
  end.

Fixpoint sorted_reverse {A} (l : list (value * A))
  : result (list (value * A)) :=
  match l with
  | [] => Ok []
  | x :: l' => s ← sorted_reverse l'; insert_reverse x s
  end.

(** [r['score']] as a term of [sum(...)], which starts from the int 0:
    an int is added, a string or a dictionary is a [TypeError] *)
Definition score_key (h : gmap loc (gmap string value)) (l : loc) : result Z :=
  d ← deref h l;
  v ← getitem d "score";
  match v with
  | VInt n => Ok n
  | _ => Raise TypeError
  end.

(** [report['rank'] = rank] *)
Definition set_rank (h : gmap loc (gmap string value)) (p : Z * loc)
  : gmap loc (gmap string value) :=
  match h !! p.2 with
  | Some d => <[p.2 := <["rank" := VInt p.1]> d]> h
  | None => h
  end.

(** [ReportGenerator.rank_players]: the store after the call and the
    returned list.  [sorted] evaluates the key of every element before
    it compares any. *)
Definition rank_players (h : gmap loc (gmap string value)) (reports : list loc)
  : result (gmap loc (gmap string value) * list loc) :=
  keys ← map_result (sort_key h) reports;
  decorated ← sorted_reverse (zip keys reports);
  let sorted_reports := decorated.*2 in
  Ok (foldl set_rank h (enumerate 1 sorted_reports), sorted_reports).

(** the dictionary [generate_summary] returns; the key
    [average_score] is missing on the empty batch *)
Record summary : Type := {
  total_players : nat;
  tier_distribution : gmap value nat;
  top_3_players : list (gmap string value);
  average_score : option Q
}.

(** [tier_counts[tier] = tier_counts.get(tier, 0) + 1]; a dictionary
    object is not hashable *)
Definition count_tier (h : gmap loc (gmap string value))
    (tier_counts : gmap value nat) (l : loc) : result (gmap value nat) :=
  d ← deref h l;
  tier ← getitem d "tier";
  match tier with
  | VRef _ => Raise TypeError
  | _ => Ok (<[tier := (default 0 (tier_counts !! tier) + 1)%nat]> tier_counts)
  end.

Definition top_entry (h : gmap loc (gmap string value)) (l : loc)
  : result (gmap string value) :=
  d ← deref h l;
  rank ← getitem d "rank";
  name ← getitem d "player_name";
  position ← getitem d "position";
  score ← getitem d "score";
  tier ← getitem d "tier";
  Ok (<["rank" := rank]> (<["name" := name]> (<["position" := position]>
     (<["score" := score]> (<["tier" := tier]> ∅))))).

(** [sum(...)]: Python's left fold from 0 *)
Definition py_sum (l : list Z) : Z := foldl Z.add 0 l.

(** [ReportGenerator.generate_summary] *)
Definition generate_summary (h : gmap loc (gmap string value))
    (ranked_reports : list loc) : result summary :=
  match ranked_reports with
  | [] =>
      Ok {| total_players := 0; tier_distribution := ∅;
            top_3_players := []; average_score := None |}
  | _ =>
      tier_counts ← fold_result (count_tier h) ∅ ranked_reports;
      top_3 ← map_result (top_entry h) (take 3 ranked_reports);
      scores ← map_result (score_key h) ranked_reports;
      average ← PyFloat.truediv (py_sum scores)
                                (Z.of_nat (length ranked_reports));
      Ok {| total_players := length ranked_reports;
            tier_distribution := tier_counts;
            top_3_players := top_3;
            average_score := Some average |}
  end.

End Generator.

Import Generator.

(** ** [src/metrics/movement.py]

    A [pandas.DataFrame] of [float64] columns is the list of its column
    names and the list of its rows; a cell missing from a short row reads
    as NaN.  The float operations [+ - * / sqrt abs] and the comparisons
    are the IEEE 754 binary64 ones.  What numpy hands to the C library or
    to BLAS is a parameter: [x ** 2] on a float64 scalar (the library's
    [pow]), [np.linalg.norm] and [np.dot] of two-element arrays,
    [np.degrees(np.arccos(c))], and the sort behind [sort_values]:
    pandas sorts with numpy's [argsort(kind='quicksort')], which
    promises an ascending order and nothing about the order of equal
    keys. *)

Module Movement.

(** a [pd.DataFrame] whose columns all hold float64 values: the column
    labels and the rows, each row with one cell per column *)
Record DataFrame : Type := {
  columns : list string;
  rows : list (list float)
}.

(** the positions [indexer] list the keys in ascending order *)
Definition ascending (keys : list float) (indexer : list nat) : Prop :=
  Sorted (λ i j, (nth i keys nan <=? nth j keys nan)%float = true) indexer.

(** [argsort keys] is the array of positions that sorts [keys]: a
    rearrangement of [0 .. len - 1] that lists the keys in ascending
    order, when none of them is NaN *)
Record NumLib : Type := {
  pow2 : float → float;
  norm2 : float → float → float;
  dot2 : float → float → float → float → float;
  arccos_degrees : float → float;
  argsort : list float → list nat;
  argsort_perm : ∀ keys, argsort keys ≡ₚ seq 0 (length keys);
  argsort_ascending : ∀ keys,
    Forall (λ k, is_nan k = false) keys → ascending keys (argsort keys)
}.

(** [len(df)] *)
Definition len (df : DataFrame) : nat := length (rows df).

(** truth value of a string: [if s:] *)
Definition truthy (s : string) : bool := negb (String.eqb s "").

(** [MovementMetrics._find_column] *)
Fixpoint _find_column (df : DataFrame) (possible_names : list string) : string :=
  match possible_names with
  | [] => ""
  | name :: rest =>
      if bool_decide (name ∈ columns df) then name
      else _find_column df rest
  end.

(** position of a column; [KeyError] when the table has no such column *)
Definition column_index (df : DataFrame) (col : string) : result nat :=
  match list_find (λ c, c = col) (columns df) with
  | Some (i, _) => Ok i
  | None => Raise (KeyError col)
  end.

Definition cell (i : nat) (row : list float) : float := nth i row nan.

(** [df[col].values] *)
Definition values (df : DataFrame) (col : string) : result (list float) :=
  i ← column_index df col;
  Ok (cell i <$> rows df).

(** [rows[indexer]] *)
Definition take_rows (rows : list (list float)) (indexer : list nat)
  : list (list float) :=
  (λ i, nth i rows []) <$> indexer.

(** [df.sort_values(by)]: the rows whose key is a number, in the order
    [argsort] gives for their keys, then the rows whose key is NaN, in
    their order *)
Definition sort_values (np : NumLib) (df : DataFrame) (by_col : string)
  : result DataFrame :=
  i ← column_index df by_col;
  let numbers := filter (λ r, is_nan (cell i r) = false) (rows df) in
  let nans := filter (λ r, is_nan (cell i r) = true) (rows df) in
  let indexer := argsort np (cell i <$> numbers) in
  Ok {| columns := columns df;
        rows := take_rows numbers indexer ++ nans |}.

(** [a[i]] *)
Definition item (a : list float) (i : nat) : result float :=
  match a !! i with
  | Some v => Ok v
  | None => Raise IndexError
  end.

(** [sum(l)] on floats: Python's left fold from 0 *)
Definition fsum (l : list float) : float := foldl PrimFloat.add 0%float l.

Definition x_names : list string := ["x"; "x_coord"; "x_position"].
Definition y_names : list string := ["y"; "y_coord"; "y_position"].
Definition time_names : list string := ["time"; "timestamp"; "frame"; "game_time"].

(** [MovementMetrics.calculate_speed] *)
Definition calculate_speed (distance time_delta : float) : float :=
  if (0 <? time_delta)%float then (distance / time_delta)%float else 0%float.

(** [if time_col: df = df.sort_values(time_col)] *)
Definition sorted_if (np : NumLib) (df : DataFrame) (time_col : string)
  : result DataFrame :=
  if truthy time_col then sort_values np df time_col else Ok df.

Section WithNumLib.
Variable np : NumLib.

(** [MovementMetrics.calculate_distance] *)
Definition calculate_distance (x1 y1 x2 y2 : float) : float :=
  sqrt (pow2 np (x2 - x1) + pow2 np (y2 - y1))%float.

(** the body of the loop of [calculate_total_distance] at index [i] *)
Definition segment (x_coords y_coords : list float) (i : nat) : result float :=
  x1 ← item x_coords (i - 1);
  y1 ← item y_coords (i - 1);
  x2 ← item x_coords i;
  y2 ← item y_coords i;
  Ok (calculate_distance x1 y1 x2 y2).

(** [MovementMetrics.calculate_total_distance] *)
Definition calculate_total_distance (tracking_df : DataFrame) : result float :=
  if (len tracking_df <? 2)%nat then Ok 0%float
  else
    let x_col := _find_column tracking_df x_names in
    let y_col := _find_column tracking_df y_names in
    if negb (truthy x_col) || negb (truthy y_col) then Ok 0%float
    else
      let time_col := _find_column tracking_df time_names in
      tracking_df ← sorted_if np tracking_df time_col;
      x_coords ← values tracking_df x_col;
      y_coords ← values tracking_df y_col;
      distances ← map_result (segment x_coords y_coords)
                             (seq 1 (length x_coords - 1));
      Ok (fsum distances).

(** [MovementMetrics.calculate_average_speed] *)
Definition calculate_average_speed (tracking_df : DataFrame) : result float :=
  if (len tracking_df <? 2)%nat then Ok 0%float
  else
    total_distance ← calculate_total_distance tracking_df;
    let time_col := _find_column tracking_df time_names in
    if truthy time_col then
      tracking_df_sorted ← sort_values np tracking_df time_col;
      time_values ← values tracking_df_sorted time_col;
      t_last ← item time_values (length time_values - 1);
      t_first ← item time_values 0;
      let total_time := (t_last - t_first)%float in
      if (0 <? total_time)%float then Ok (total_distance / total_time)%float
      else Ok 0%float
    else Ok 0%float.

(** the body of the loop of [calculate_max_speed]: the list [speeds]
    after index [i] *)
Definition speed_step (x_coords y_coords time_values : list float)
    (speeds : list float) (i : nat) : result (list float) :=
  dist ← segment x_coords y_coords i;
  t ← item time_values i;
  t_prev ← item time_values (i - 1);
  let time_delta := (t - t_prev)%float in
  if (0 <? time_delta)%float then Ok (speeds ++ [(dist / time_delta)%float])
  else Ok speeds.

(** [max(l)] on a non-empty list of floats *)
Definition fmax (first : float) (others : list float) : float :=
  foldl (λ m v, if (m <? v)%float then v else m) first others.

(** [MovementMetrics.calculate_max_speed] *)
Definition calculate_max_speed (tracking_df : DataFrame) : result float :=
  if (len tracking_df <? 2)%nat then Ok 0%float
  else
    let x_col := _find_column tracking_df x_names in
    let y_col := _find_column tracking_df y_names in
    let time_col := _find_column tracking_df time_names in
    if negb (truthy x_col) || negb (truthy y_col) || negb (truthy time_col)
    then Ok 0%float
    else
      tracking_df ← sort_values np tracking_df time_col;
      x_coords ← values tracking_df x_col;
      y_coords ← values tracking_df y_col;
      time_values ← values tracking_df time_col;
      speeds ← fold_result (speed_step x_coords y_coords time_values) []
                           (seq 1 (length x_coords - 1));
      match speeds with
      | [] => Ok 0%float
      | v :: vs => Ok (fmax v vs)
      end.

(** [np.clip(c, -1.0, 1.0)] *)
Definition clip (c : float) : float :=
  if (c <? -1)%float then (-1)%float
  else if (1 <? c)%float then 1%float
  else c.

(** the body of the loop of [calculate_direction_changes]: the counter
    after index [i] *)
Definition turn_step (threshold : float) (x_coords y_coords : list float)
    (direction_changes : Z) (i : nat) : result Z :=
  x1 ← item x_coords (i - 1);
  x0 ← item x_coords (i - 2);
  y1 ← item y_coords (i - 1);
  y0 ← item y_coords (i - 2);
  x2 ← item x_coords i;
  y2 ← item y_coords i;
  let '(v1x, v1y) := ((x1 - x0)%float, (y1 - y0)%float) in
  let '(v2x, v2y) := ((x2 - x1)%float, (y2 - y1)%float) in
  if (0 <? norm2 np v1x v1y)%float && (0 <? norm2 np v2x v2y)%float then
    let cos_angle :=
      (dot2 np v1x v1y v2x v2y / (norm2 np v1x v1y * norm2 np v2x v2y))%float in
    let angle := arccos_degrees np (clip cos_angle) in
    if (threshold <=? angle)%float then Ok (direction_changes + 1)
    else Ok direction_changes
  else Ok direction_changes.

(** [MovementMetrics.calculate_direction_changes] *)
Definition calculate_direction_changes (tracking_df : DataFrame)
    (threshold : float) : result Z :=
  if (len tracking_df <? 3)%nat then Ok 0
  else
    let x_col := _find_column tracking_df x_names in
    let y_col := _find_column tracking_df y_names in
    if negb (truthy x_col) || negb (truthy y_col) then Ok 0
    else
      let time_col := _find_column tracking_df time_names in
      tracking_df ← sorted_if np tracking_df time_col;
      x_coords ← values tracking_df x_col;
      y_coords ← values tracking_df y_col;
      fold_result (turn_step threshold x_coords y_coords) 0
                  (seq 2 (length x_coords - 2)).

End WithNumLib.

(** one term of the sum of [_calculate_lateral_movement] *)
Definition lateral_step (x_coords : list float) (i : nat) : result float :=
  x2 ← item x_coords i;
  x1 ← item x_coords (i - 1);
  Ok (abs (x2 - x1))%float.

(** [MovementMetrics._calculate_lateral_movement] *)
Definition _calculate_lateral_movement (tracking_df : DataFrame) : result float :=
  if (len tracking_df <? 2)%nat then Ok 0%float
  else
    let x_col := _find_column tracking_df x_names in
    if negb (truthy x_col) then Ok 0%float
    else
      x_coords ← values tracking_df x_col;
      steps ← map_result (lateral_step x_coords) (seq 1 (length x_coords - 1));
      Ok (fsum steps).

End Movement.

(** ** [src/ai_providers/*.py]: the [generate_score] methods

    The three providers end in the same lines: strip the reply, search
    the first match of [\d+], convert it with [int], clamp to 0..100,
    and answer 50 when nothing matches or anything raises.

    Python's [\d] and [int()] go by the Unicode decimal-digit property
    and [str.strip] by the Unicode whitespace property; both tables are
    parameters, as is the digit limit of [int()] ([None]: no limit). *)

Module Providers.

Section ScoreText.
Context {char : Type}.
Variable digit_value : char → option Z.
Variable is_space : char → bool.
Variable max_str_digits : option nat.

Definition is_digit (c : char) : bool :=
  match digit_value c with
  | Some _ => true
  | None => false
  end.

Fixpoint lstrip (s : list char) : list char :=
  match s with
  | [] => []
  | c :: s' => if is_space c then lstrip s' else s
  end.

(** [s.strip()] *)
Definition strip (s : list char) : list char :=
  reverse (lstrip (reverse (lstrip s))).

(** the longest prefix of digits *)
Fixpoint digits_prefix (s : list char) : list char :=
  match s with
  | [] => []
  | c :: s' => if is_digit c then c :: digits_prefix s' else []
  end.

(** [re.search(r'\d+', s)]: the leftmost match, as long as it can
    be; [match.group()] is the matched text *)
Fixpoint re_search_digits (s : list char) : option (list char) :=
  match s with
  | [] => None
  | c :: s' =>
      if is_digit c then Some (c :: digits_prefix s')
      else re_search_digits s'
  end.

(** the number a run of digits denotes *)
Definition int_of_digits (ds : list char) : Z :=
  foldl (λ acc c, 10 * acc + default 0 (digit_value c)) 0 ds.

(** [int(ds)] on a run of digits *)
Definition py_int (ds : list char) : result Z :=
  match max_str_digits with
  | Some n => if (n <? length ds)%nat then Raise ValueError
              else Ok (int_of_digits ds)
  | None => Ok (int_of_digits ds)
  end.

(** from [match = re.search(...)] to the [return]s *)
Definition score_from_text (score_text : list char) : result Z :=
  match re_search_digits score_text with
  | Some group =>
      score ← py_int group;
      Ok (Z.max 0 (Z.min 100 score))
  | None => Ok 50
  end.

(** [AnthropicProvider.generate_score], given what
    [client.messages.create(...)] and [message.content[0].text] yield:
    the text or an exception *)
Definition anthropic_generate_score (reply : result (list char)) : Z :=
  try_except (text ← reply; score_from_text (strip text)) 50.

(** [OpenAIProvider.generate_score], given what
    [client.chat.completions.create(...)] and
    [response.choices[0].message.content] yield *)
Definition openai_generate_score (reply : result (list char)) : Z :=
  try_except (text ← reply; score_from_text (strip text)) 50.

(** [OllamaProvider.generate_score], given what [requests.post]
    yields: the status code and the [response] field of the JSON
    body, if it has one, or an exception *)
Definition ollama_generate_score
    (reply : result (Z * option (list char))) : Z :=
  try_except
    (r ← reply;
     if r.1 =? 200 then score_from_text (strip (default [] r.2))
     else Ok 50)
    50.

(** a provider object around a model that answers prompts *)
Definition anthropic_provider {prompt : Type}
    (report_of : prompt → string) (reply_to : prompt → result (list char))
  : Generator.AIProvider prompt :=
  {| Generator.generate_report := report_of;
     Generator.generate_score := λ p, anthropic_generate_score (reply_to p) |}.

Definition openai_provider {prompt : Type}
    (report_of : prompt → string) (reply_to : prompt → result (list char))
  : Generator.AIProvider prompt :=
  {| Generator.generate_report := report_of;
     Generator.generate_score := λ p, openai_generate_score (reply_to p) |}.

Definition ollama_provider {prompt : Type}
    (report_of : prompt → string)
    (reply_to : prompt → result (Z * option (list char)))
  : Generator.AIProvider prompt :=
  {| Generator.generate_report := report_of;
     Generator.generate_score := λ p, ollama_generate_score (reply_to p) |}.

End ScoreText.

(** the ASCII part of the two tables *)
Definition ascii_digit_value (c : ascii) : option Z :=
  let n := Z.of_N (N_of_ascii c) in
  if (48 <=? n) && (n <=? 57) then Some (n - 48) else None.

Definition ascii_is_space (c : ascii) : bool :=
  let n := Z.of_N (N_of_ascii c) in
  ((9 <=? n) && (n <=? 13)) || ((28 <=? n) && (n <=? 32)).

Definition chars (s : string) : list ascii := String.list_ascii_of_string s.

End Providers.

(** ** Vocabulary of the statements about the movement metrics *)

Section PathVocabulary.
Import Movement.
Variable np : NumLib.

(** the distances between each sample and the next one *)
Fixpoint consecutive_distances (xs ys : list float) : list float :=
  match xs, ys with
  | x1 :: xs', y1 :: ys' =>
      match xs', ys' with
      | x2 :: _, y2 :: _ =>
          calculate_distance np x1 y1 x2 y2 :: consecutive_distances xs' ys'
      | _, _ => []
      end
  | _, _ => []
  end.

(** the absolute differences between each x and the next one *)
Fixpoint consecutive_x_deltas (xs : list float) : list float :=
  match xs with
  | x1 :: xs' =>
      match xs' with
      | x2 :: _ => abs (x2 - x1)%float :: consecutive_x_deltas xs'
      | [] => []
      end
  | [] => []
  end.

(** the speeds over the steps that take a positive time *)
Fixpoint segment_speeds (xs ys ts : list float) : list float :=
  match xs, ys, ts with
  | x1 :: xs', y1 :: ys', t1 :: ts' =>
      match xs', ys', ts' with
      | x2 :: _, y2 :: _, t2 :: _ =>
          if (0 <? t2 - t1)%float
          then (calculate_distance np x1 y1 x2 y2 / (t2 - t1))%float
               :: segment_speeds xs' ys' ts'
          else segment_speeds xs' ys' ts'
      | _, _, _ => []
      end
  | _, _, _ => []
  end.

End PathVocabulary.

(** the tables the movement model speaks about: distinct column labels
    (pandas then reads [df[col]] as one column) and one cell per column
    in every row *)
Definition is_table (df : Movement.DataFrame) : Prop :=
  NoDup (Movement.columns df)
  ∧ Forall (λ r, length r = length (Movement.columns df)) (Movement.rows df).

(** the time stamp of a row of the table *)
Definition time_of (df : Movement.DataFrame) (r : list float) : float :=
  match Movement.column_index df
          (Movement._find_column df Movement.time_names) with
  | Ok i => Movement.cell i r
  | Raise _ => nan
  end.

(** the table has a time column and its rows are stored in strictly
    increasing time *)
Definition chronological (df : Movement.DataFrame) : Prop :=
  Movement.truthy (Movement._find_column df Movement.time_names) = true
  ∧ StronglySorted (λ r1 r2, (time_of df r1 <? time_of df r2)%float = true)
      (Movement.rows df).

(** no alias of a logical field is a column of the table *)
Definition lacks (df : Movement.DataFrame) (names : list string) : Prop :=
  Forall (λ n, n ∉ Movement.columns df) names.

(** ** Vocabulary of the statements about the rank aggregator *)

(** the value of field [k] of the object at [l] *)
Definition field (h : gmap loc (gmap string value)) (l : loc) (k : string)
  : option value :=
  h !! l ≫= (.!! k).

(** neighbours in a list sorted largest key first: the key of the
    first is not below the key of the second *)
Definition not_below {A} (x y : value * A) : Prop := py_lt x.1 y.1 = Ok false.

Section ScoreOrder.
Context (h : gmap loc (gmap string value)).

(** descending order of the scores stored in [h] *)
Definition score_desc (a b : loc) : Prop :=
  ∃ sa sb, score_key h a = Ok sa ∧ score_key h b = Ok sb ∧ sb ≤ sa.

(** the reports of [l] whose score is [s], in the order of [l] *)
Definition with_score (s : Z) (l : list loc) : list loc :=
  filter (λ r, score_key h r = Ok s) l.

(** a list of (key, report) pairs whose keys are the reports' scores *)
Definition keyed (ps : list (Z * loc)) : Prop :=
  Forall (λ p, score_key h p.2 = Ok p.1) ps.

End ScoreOrder.

(** ** Vocabulary of the statements about tiers *)

(** the six tiers from worst to best, as numbers *)
Definition tier_grade (tier : string) : nat :=
  if String.eqb tier "S" then 5
  else if String.eqb tier "A" then 4
  else if String.eqb tier "B" then 3
  else if String.eqb tier "C" then 2
  else if String.eqb tier "D" then 1
  else 0.

(** the tier stored in a report, when it is a string *)
Definition tier_of (h : gmap loc (gmap string value)) (l : loc) : option string :=
  match field h l "tier" with
  | Some (VStr t) => Some t
  | _ => None
  end.

(** a report as [generate_player_report] returns it, stored at [l] *)
Definition fresh_report {prompt : Type}
    (generate_player_prompt : string → string → loc → prompt)
    (h : gmap loc (gmap string value)) (l : loc) : Prop :=
  ∃ p n pos m,
    h !! l = Some (generate_player_report generate_player_prompt p n pos m).

(** a report without a [score] key *)
Definition lacks_score (h : gmap loc (gmap string value)) (l : loc) : Prop :=
  ∃ d, h !! l = Some d ∧ d !! "score" = None.

(** ** Vocabulary of the statements about the summary *)

(** the sum of the counts of a tier distribution *)
Definition count_sum (m : gmap value nat) : nat :=
  map_fold (λ _ c acc, (c + acc)%nat) 0%nat m.

(** the arithmetic mean of a batch of scores, as an exact rational *)
Definition arithmetic_mean (scores : list Z) : Q :=
  (inject_Z (foldr Z.add 0%Z scores) / inject_Z (Z.of_nat (length scores)))%Q.

(** how many reports of the batch carry tier [t] *)
Definition tier_count (h : gmap loc (gmap string value)) (t : value)
    (reports : list loc) : nat :=
  length (filter (λ l, field h l "tier" = Some t) reports).

(** a report as [generate_player_report] and [rank_players] leave it:
    name, position, a score in [0, 100], a tier that can be a
    dictionary key, and a rank *)
Definition ranked_report (h : gmap loc (gmap string value)) (l : loc) : Prop :=
  ∃ d s t,
    h !! l = Some d
    ∧ d !! "score" = Some (VInt s) ∧ 0 ≤ s ≤ 100
    ∧ d !! "tier" = Some t ∧ (∀ r, t ≠ VRef r)
    ∧ is_Some (d !! "rank")
    ∧ is_Some (d !! "player_name")
    ∧ is_Some (d !! "position").

(** ** A batch to run the code on *)

Module Fixtures.

(** a capability that answers every prompt with the same score, like
    the repository's [MockAIProvider] *)
Definition fixed_provider (score : Z) : AIProvider string :=
  {| generate_report := λ _, "Good movement patterns.";
     generate_score := λ _, score |}.

(** address of a shared, empty metrics dictionary *)
Definition metrics_at : loc := 100%positive.

Definition report_of (name : string) (score : Z) : gmap string value :=
  generate_player_report (λ n _ _, n) (fixed_provider score) name "F" metrics_at.

(** four reports with scores 50, 90, 90, 70 at addresses 1, 2, 3, 4 *)
Definition batch_heap : gmap loc (gmap string value) :=
  <[1%positive := report_of "p1" 50]>
  (<[2%positive := report_of "p2" 90]>
  (<[3%positive := report_of "p3" 90]>
  (<[4%positive := report_of "p4" 70]>
  (<[metrics_at := ∅]> ∅)))).

Definition batch : list loc := [1; 2; 3; 4]%positive.

(** the same store with a fifth report that has lost its score *)
Definition broken_heap : gmap loc (gmap string value) :=
  <[5%positive := delete "score" (report_of "p5" 60)]> batch_heap.

(** the broken store with a sixth report whose score is a string *)
Definition odd_heap : gmap loc (gmap string value) :=
  <[6%positive := <["score" := VStr "high"]> (report_of "p6" 60)]> broken_heap.

(** the store and the list that [rank_players] leaves for that batch *)
Definition ranked : gmap loc (gmap string value) * list loc :=
  (<[2%positive := <["rank" := VInt 1]> (report_of "p2" 90)]>
   (<[3%positive := <["rank" := VInt 2]> (report_of "p3" 90)]>
   (<[4%positive := <["rank" := VInt 3]> (report_of "p4" 70)]>
   (<[1%positive := <["rank" := VInt 4]> (report_of "p1" 50)]>
   (<[metrics_at := ∅]> ∅)))),
   [2; 3; 4; 1]%positive).

(** a tracking table with its rows out of time order: the samples
    (0,0), (3,4), (6,8) taken at times 0, 1, 2, stored as first, third,
    second *)
Definition shuffled_df : Movement.DataFrame :=
  {| Movement.columns := ["player_id"; "time"; "x"; "y"];
     Movement.rows := [[1; 0; 0; 0]; [1; 2; 6; 8]; [1; 1; 3; 4]]%float |}.

(** the same samples in time order *)
Definition ordered_df : Movement.DataFrame :=
  {| Movement.columns := ["player_id"; "time"; "x"; "y"];
     Movement.rows := [[1; 0; 0; 0]; [1; 1; 3; 4]; [1; 2; 6; 8]]%float |}.

(** a path with one right-angled turn: east, then north *)
Definition turning_df : Movement.DataFrame :=
  {| Movement.columns := ["time"; "x"; "y"];
     Movement.rows := [[0; 0; 0]; [1; 1; 0]; [2; 1; 1]]%float |}.

(** a table without coordinates *)
Definition no_xy_df : Movement.DataFrame :=
  {| Movement.columns := ["player_id"; "time"];
     Movement.rows := [[1; 0]; [1; 1]; [1; 2]]%float |}.

(** a stable insertion sort of positions by their keys, to serve as
    [argsort] *)
Fixpoint insert_asc (key : nat → float) (i : nat) (l : list nat) : list nat :=
  match l with
  | [] => [i]
  | j :: l' =>
      if (key i <=? key j)%float then i :: j :: l'
      else j :: insert_asc key i l'
  end.

Definition insertion_argsort (keys : list float) : list nat :=
  foldr (insert_asc (λ i, nth i keys nan)) [] (seq 0 (length keys)).

End Fixtures.

Import Fixtures.

(* ===================================================================== *)
(** * Part II: properties *)
(* ===================================================================== *)

(** case analysis on every integer comparison of the goal *)
Ltac case_leb :=
  repeat match goal with
         | |- context [?a <=? ?b] => destruct (Z.leb_spec a b)
         | |- context [?a <? ?b] => destruct (Z.ltb_spec a b)
         end.

(** ** The tier classifier *)

(** C1. For every integer score the classifier returns S from 90 up, A on
    80..89, B on 70..79, C on 60..69, D on 50..59 and F below 50; the ten
    boundary scores 90, 89, 80, 79, 70, 69, 60, 59, 50, 49 map to
    S, A, A, B, B, C, C, D, D, F. *)
Theorem score_to_tier_table (score : Z) :
  _score_to_tier score =
    (if decide (90 ≤ score) then "S"
     else if decide (80 ≤ score ≤ 89) then "A"
     else if decide (70 ≤ score ≤ 79) then "B"
     else if decide (60 ≤ score ≤ 69) then "C"
     else if decide (50 ≤ score ≤ 59) then "D"
     else "F")
  ∧ (score < 50 → _score_to_tier score = "F")
  ∧ _score_to_tier <$> [90; 89; 80; 79; 70; 69; 60; 59; 50; 49]
    = ["S"; "A"; "A"; "B"; "B"; "C"; "C"; "D"; "D"; "F"].
Proof.
  split; [|split; [|reflexivity]].
  - unfold _score_to_tier.
    rewrite !Z.geb_leb. case_leb; repeat case_decide; first [lia | reflexivity].
  - intros Hlt. unfold _score_to_tier.
    rewrite !Z.geb_leb. case_leb; first [lia | reflexivity].
Qed.

(** C9. The classifier is total on the integers: every input, in or out
    of [0, 100], yields one of the six tiers; every score from 90 up
    (150 for one) yields S and every negative score yields F. *)
Theorem score_to_tier_total (score : Z) :
  _score_to_tier score ∈ ["S"; "A"; "B"; "C"; "D"; "F"]
  ∧ (if decide (90 ≤ score) then _score_to_tier score = "S" else True)
  ∧ (if decide (score < 0) then _score_to_tier score = "F" else True)
  ∧ _score_to_tier 150 = "S"
  ∧ _score_to_tier (-1) = "F".
Proof.
  unfold _score_to_tier. rewrite !Z.geb_leb.
  repeat split; try reflexivity.
  - case_leb; set_solver.
  - case_decide; [|done]. case_leb; first [lia | reflexivity].
  - case_decide; [|done]. case_leb; first [lia | reflexivity].
Qed.

(** ** The stable descending sort *)

Section SortedDescFacts.
Context {A : Type} (key : A → Z).


Lemma insert_desc_perm x l : insert_desc key x l ≡ₚ x :: l.
Proof.
  induction l as [|y l IH]; simpl; [done|].
  destruct (key x <? key y); [|done].
  rewrite IH. apply Permutation_swap.
Qed.

Lemma sorted_desc_perm l : sorted_desc key l ≡ₚ l.
Proof.
  induction l as [|x l IH]; simpl; [done|].
  by rewrite insert_desc_perm, IH.
Qed.

Lemma sorted_desc_length l : length (sorted_desc key l) = length l.
Proof. by rewrite sorted_desc_perm. Qed.

Lemma insert_desc_sorted x l :
  StronglySorted (desc key) l → StronglySorted (desc key) (insert_desc key x l).
Proof.
  induction 1 as [|y l Hs IH Hy]; simpl.
  - repeat constructor.
  - destruct (Z.ltb_spec (key x) (key y)) as [Hlt|Hge].
    + constructor; [done|].
      rewrite insert_desc_perm. constructor; [unfold desc; lia | done].
    + constructor; [by constructor|].
      constructor; [done|].
      eapply Forall_impl; [exact Hy|]. unfold desc. intros; lia.
Qed.

Lemma sorted_desc_sorted l : StronglySorted (desc key) (sorted_desc key l).
Proof.
  induction l; simpl; [constructor | by apply insert_desc_sorted].
Qed.


Lemma insert_desc_with_key s x l :
  with_key key s (insert_desc key x l) = with_key key s (x :: l).
Proof.
  unfold with_key. induction l as [|y l IH]; simpl; [done|].
  destruct (Z.ltb_spec (key x) (key y)) as [Hlt|Hge]; [|done].
  rewrite (filter_cons _ y), IH, !filter_cons.
  repeat case_decide; first [lia | done].
Qed.

(** stability: the elements of equal key come out in their input order *)
Lemma sorted_desc_stable s l : with_key key s (sorted_desc key l) = with_key key s l.
Proof.
  induction l as [|x l IH]; simpl; [done|].
  rewrite insert_desc_with_key. unfold with_key in *.
  by rewrite !filter_cons, IH.
Qed.

(** a descending list is determined by its groups of equal key *)
Lemma desc_sorted_groups_eq l1 l2 :
  StronglySorted (desc key) l1 → StronglySorted (desc key) l2 →
  (∀ s, with_key key s l1 = with_key key s l2) → l1 = l2.
Proof.
  intros Hs1. revert l2.
  induction Hs1 as [|x l1 Hs1 IH Hx]; intros l2 Hs2 Hg.
  - destruct l2 as [|y l2]; [done|].
    specialize (Hg (key y)). unfold with_key in Hg.
    rewrite filter_cons in Hg. by case_decide.
  - destruct Hs2 as [|y l2 Hs2 Hy].
    { specialize (Hg (key x)). unfold with_key in Hg.
      rewrite filter_cons in Hg. by case_decide. }
    assert (key x = key y) as Hk.
    { assert (x ∈ y :: l2) as Hin2.
      { eapply (list_elem_of_filter (λ a, key a = key x)).
        fold (with_key key (key x) (y :: l2)). rewrite <- Hg.
        unfold with_key. rewrite filter_cons. case_decide; [left|done]. }
      assert (y ∈ x :: l1) as Hin1.
      { eapply (list_elem_of_filter (λ a, key a = key y)).
        fold (with_key key (key y) (x :: l1)). rewrite Hg.
        unfold with_key. rewrite filter_cons. case_decide; [left|done]. }
      rewrite Forall_forall in Hx, Hy. unfold desc in *.
      apply elem_of_cons in Hin2 as [->|Hin2]; [done|].
      apply elem_of_cons in Hin1 as [->|Hin1]; [done|].
      specialize (Hx _ Hin1). specialize (Hy _ Hin2). lia. }
    assert (x = y) as ->.
    { specialize (Hg (key x)). unfold with_key in Hg.
      rewrite !filter_cons in Hg. rewrite <- Hk in Hg.
      repeat case_decide; try done. by injection Hg. }
    f_equal. apply IH; [done|]. intros s.
    specialize (Hg s). unfold with_key in *. rewrite !filter_cons in Hg.
    case_decide; [by injection Hg | done].
Qed.

(** every stable descending sort returns what the model returns *)
Lemma sorted_desc_unique l l' :
  StronglySorted (desc key) l' → (∀ s, with_key key s l' = with_key key s l) →
  l' = sorted_desc key l.
Proof.
  intros Hs Hg. apply desc_sorted_groups_eq; [done|apply sorted_desc_sorted|].
  intros s. by rewrite Hg, sorted_desc_stable.
Qed.

End SortedDescFacts.

(** ** Results and loops that may raise *)

Lemma bind_Ok {A B} (a : A) (f : A → result B) : Ok a ≫= f = f a.
Proof. reflexivity. Qed.

Lemma map_result_Ok {A B} (f : A → result B) l ys :
  map_result f l = Ok ys ↔ Forall2 (λ x y, f x = Ok y) l ys.
Proof.
  revert ys. induction l as [|x l IH]; intros ys; simpl.
  - split; [intros [= <-]; constructor | by inversion 1].
  - destruct (f x) as [y|e] eqn:Hx; simpl.
    + destruct (map_result f l) as [ys'|e] eqn:Hl; simpl.
      * split.
        -- intros [= <-]. constructor; [done|]. by apply IH.
        -- inversion 1 as [|? y' ? ys'' Hy Hys]; subst.
           apply IH in Hys. congruence.
      * split; [done|].
        inversion 1 as [|? y' ? ys'' Hy Hys]; subst. by apply IH in Hys.
    + split; [done|]. inversion 1; congruence.
Qed.

Lemma map_result_length {A B} (f : A → result B) l ys :
  map_result f l = Ok ys → length ys = length l.
Proof. rewrite map_result_Ok. intros H. symmetry. by eapply Forall2_length. Qed.

(** ** The rank aggregator *)


Lemma set_rank_lookup h r x l :
  set_rank h (r, x) !! l =
    if decide (x = l) then <["rank" := VInt r]> <$> h !! l else h !! l.
Proof.
  unfold set_rank; simpl. destruct (h !! x) as [d|] eqn:Hx.
  - case_decide; subst; [by rewrite lookup_insert_eq, Hx|by rewrite lookup_insert_ne].
  - case_decide; subst; [by rewrite Hx|done].
Qed.

Lemma foldl_set_rank_other out start h l :
  l ∉ out → foldl set_rank h (enumerate start out) !! l = h !! l.
Proof.
  revert start h. induction out as [|x out IH]; intros start h Hl; simpl; [done|].
  apply not_elem_of_cons in Hl as [Hne Hl].
  rewrite IH, set_rank_lookup by done. by case_decide.
Qed.

Lemma foldl_set_rank_elem out start h l :
  l ∈ out →
  ∃ r, start ≤ r < start + Z.of_nat (length out)
       ∧ foldl set_rank h (enumerate start out) !! l
         = <["rank" := VInt r]> <$> h !! l.
Proof.
  revert start h. induction out as [|x out IH]; intros start h Hl; simpl.
  - by apply elem_of_nil in Hl.
  - destruct (decide (l ∈ out)) as [Hin|Hnin].
    + destruct (IH (start + 1) (set_rank h (start, x)) Hin) as (r & Hr & ->).
      exists r. split; [lia|].
      rewrite set_rank_lookup. case_decide; [|done].
      destruct (h !! l); simpl; [|done]. by rewrite insert_insert_eq.
    + apply elem_of_cons in Hl as [->|Hl]; [|done].
      exists start. split; [lia|].
      rewrite foldl_set_rank_other, set_rank_lookup by done. by case_decide.
Qed.

Lemma foldl_set_rank_index out start h i l :
  NoDup out → out !! i = Some l →
  foldl set_rank h (enumerate start out) !! l
  = <["rank" := VInt (start + Z.of_nat i)]> <$> h !! l.
Proof.
  intros Hnd. revert start h i.
  induction Hnd as [|x out Hx Hnd IH]; intros start h i Hi; simpl; [done|].
  destruct i as [|i]; simpl in Hi.
  - injection Hi as ->.
    rewrite foldl_set_rank_other, set_rank_lookup by done.
    case_decide; [|done]. by rewrite Z.add_0_r.
  - rewrite (IH _ _ i) by done. rewrite set_rank_lookup.
    case_decide as Heq.
    + subst. exfalso. apply Hx. by eapply list_elem_of_lookup_2.
    + do 3 f_equal. lia.
Qed.

(** writing ranks never changes the sort key of any object *)
Lemma score_key_rank_frame h h' l :
  (h' !! l = h !! l ∨ ∃ r, h' !! l = <["rank" := VInt r]> <$> h !! l) →
  score_key h' l = score_key h l.
Proof.
  unfold score_key, deref. intros [->|[r ->]]; [done|].
  destruct (h !! l) as [d|]; simpl; [|done].
  unfold getitem. by rewrite lookup_insert_ne.
Qed.

Lemma score_key_Ok_inv h l s :
  score_key h l = Ok s →
  ∃ d, h !! l = Some d ∧ d !! "score" = Some (VInt s).
Proof.
  unfold score_key, deref, getitem.
  destruct (h !! l) as [d|]; simpl; [|done].
  destruct (d !! "score") as [[]|] eqn:Hs; simpl; try done.
  intros [= ->]. eauto.
Qed.

Section RankPlayers.
Context (h : gmap loc (gmap string value)).

Lemma keyed_zip keys reports :
  Forall2 (λ l k, score_key h l = Ok k) reports keys → keyed h (zip keys reports).
Proof. unfold keyed. induction 1; simpl; by constructor. Qed.

Lemma keyed_perm ps ps' : ps ≡ₚ ps' → keyed h ps → keyed h ps'.
Proof. unfold keyed. by intros ->. Qed.

Lemma keyed_sorted ps :
  keyed h ps → StronglySorted (desc fst) ps → StronglySorted (score_desc h) ps.*2.
Proof.
  intros Hk Hs. induction Hs as [|p ps Hs IH Hp]; simpl; [constructor|].
  apply Forall_cons in Hk as [Hp1 Hk].
  constructor; [by apply IH|].
  rewrite Forall_fmap. unfold keyed in Hk.
  rewrite Forall_forall in Hp, Hk |- *. intros q Hq; simpl.
  exists p.1, q.1. split_and!; [done|by apply Hk|by apply Hp].
Qed.

Lemma keyed_with_score s ps :
  keyed h ps → (with_key fst s ps).*2 = with_score h s ps.*2.
Proof.
  unfold with_key, with_score.
  induction 1 as [|p ps Hp Hk IH]; [done|].
  rewrite fmap_cons, !filter_cons.
  destruct (decide (p.1 = s)) as [<-|Hne].
  - rewrite decide_True by done. by rewrite fmap_cons, IH.
  - rewrite decide_False by congruence. done.
Qed.

End RankPlayers.

Lemma StronglySorted_mono {A} (R R' : A → A → Prop) l :
  (∀ a b, R a b → R' a b) → StronglySorted R l → StronglySorted R' l.
Proof.
  intros HR. induction 1 as [|x l Hs IH Hx]; constructor; [done|].
  eapply Forall_impl; [exact Hx|]. auto.
Qed.

(** *** The sort on stored values *)

Lemma sort_key_score h l s : score_key h l = Ok s → sort_key h l = Ok (VInt s).
Proof.
  unfold score_key, sort_key.
  destruct (deref h l) as [d|e]; simpl; [|done].
  destruct (getitem d "score") as [[n| |]|e]; simpl; try done.
  by intros [= ->].
Qed.

Lemma sort_key_Ok_inv h l k :
  sort_key h l = Ok k → ∃ d, h !! l = Some d ∧ d !! "score" = Some k.
Proof.
  unfold sort_key, deref, getitem.
  destruct (h !! l) as [d|]; simpl; [|done].
  destruct (d !! "score") as [v|] eqn:Hv; simpl; [|done].
  intros [= <-]. eauto.
Qed.

Lemma sort_keys_scores h reports scores :
  Forall2 (λ l s, score_key h l = Ok s) reports scores →
  map_result (sort_key h) reports = Ok (VInt <$> scores).
Proof.
  intros HF. apply map_result_Ok.
  induction HF as [|l s reports scores Hl _ IH]; simpl; constructor; [|done].
  by apply sort_key_score.
Qed.

(** on int keys the sort on stored values is the sort on integers *)
Lemma insert_reverse_int {A} (x : Z * A) (l : list (Z * A)) :
  insert_reverse (prod_map VInt id x) (prod_map VInt id <$> l)
  = Ok (prod_map VInt id <$> insert_desc fst x l).
Proof.
  destruct x as [kx ax].
  induction l as [|[ky ay] l IH]; simpl in *; [done|].
  destruct (kx <? ky); simpl; [|done]. unfold fmap in IH. by rewrite IH.
Qed.

Lemma sorted_reverse_int {A} (l : list (Z * A)) :
  sorted_reverse (prod_map VInt id <$> l)
  = Ok (prod_map VInt id <$> sorted_desc fst l).
Proof.
  induction l as [|x l IH]; [done|].
  change (sorted_reverse (prod_map VInt id <$> x :: l))
    with (sorted_reverse (prod_map VInt id <$> l)
          ≫= insert_reverse (prod_map VInt id x)).
  rewrite IH, bind_Ok. apply insert_reverse_int.
Qed.

Lemma insert_reverse_perm {A} (x : value * A) l r :
  insert_reverse x l = Ok r → r ≡ₚ x :: l.
Proof.
  revert r. induction l as [|y l IH]; intros r; simpl.
  - by intros [= <-].
  - destruct (py_lt x.1 y.1) as [[]|e]; simpl; [| |done].
    + destruct (insert_reverse x l) as [r'|e]; simpl; [|done].
      intros [= <-]. rewrite (IH r' eq_refl). apply Permutation_swap.
    + by intros [= <-].
Qed.

Lemma sorted_reverse_perm {A} (l s : list (value * A)) :
  sorted_reverse l = Ok s → s ≡ₚ l.
Proof.
  revert s. induction l as [|x l IH]; intros s; simpl.
  - by intros [= <-].
  - destruct (sorted_reverse l) as [s'|e]; simpl; [|done].
    intros Hs%insert_reverse_perm. by rewrite Hs, (IH s' eq_refl).
Qed.

Lemma py_lt_asym a b : py_lt a b = Ok true → py_lt b a = Ok false.
Proof.
  destruct a as [x|x|x], b as [y|y|y]; simpl; try done.
  - intros [= Hlt]. f_equal. apply Z.ltb_lt in Hlt. apply Z.ltb_ge. lia.
  - unfold String.ltb. rewrite (String.compare_antisym y x).
    by destruct (String.compare x y).
Qed.

Lemma insert_reverse_head {A} (x y : value * A) l r :
  insert_reverse x l = Ok r →
  not_below y x → HdRel not_below y l → HdRel not_below y r.
Proof.
  destruct l as [|z l]; simpl.
  - intros [= <-] Hyx _. by constructor.
  - destruct (py_lt x.1 z.1) as [[]|e]; simpl; [| |done].
    + destruct (insert_reverse x l) as [r'|e]; simpl; [|done].
      intros [= <-] _ Hyz. constructor. by inversion Hyz.
    + intros [= <-] Hyx _. by constructor.
Qed.

Lemma insert_reverse_sorted {A} (x : value * A) l r :
  Sorted not_below l → insert_reverse x l = Ok r → Sorted not_below r.
Proof.
  intros Hl. revert r. induction Hl as [|y l Hl IH Hy]; intros r; simpl.
  - intros [= <-]. by repeat constructor.
  - destruct (py_lt x.1 y.1) as [[]|e] eqn:Hxy; simpl; [| |done].
    + destruct (insert_reverse x l) as [r'|e] eqn:Hr'; simpl; [|done].
      intros [= <-]. constructor; [by apply IH|].
      eapply insert_reverse_head; [exact Hr'| |done].
      by apply py_lt_asym.
    + intros [= <-]. by repeat constructor.
Qed.

Lemma sorted_reverse_sorted {A} (l s : list (value * A)) :
  sorted_reverse l = Ok s → Sorted not_below s.
Proof.
  revert s. induction l as [|x l IH]; intros s; simpl.
  - intros [= <-]. constructor.
  - destruct (sorted_reverse l) as [s'|e]; simpl; [|done].
    apply insert_reverse_sorted. by apply IH.
Qed.

(** a sorted list is sorted into itself *)
Lemma sorted_reverse_fixed {A} (s : list (value * A)) :
  Sorted not_below s → sorted_reverse s = Ok s.
Proof.
  induction 1 as [|x s Hs IH Hx]; simpl; [done|].
  rewrite IH, bind_Ok. destruct Hx as [|y s Hxy]; simpl; [done|].
  unfold not_below in Hxy. by rewrite Hxy.
Qed.

Lemma sort_key_rank_frame h h' l :
  (h' !! l = h !! l ∨ ∃ r, h' !! l = <["rank" := VInt r]> <$> h !! l) →
  sort_key h' l = sort_key h l.
Proof.
  unfold sort_key, deref. intros [->|[r ->]]; [done|].
  destruct (h !! l) as [d|]; simpl; [|done].
  unfold getitem. by rewrite lookup_insert_ne.
Qed.

(** what [rank_players] returns when every key can be read *)
Lemma rank_players_Ok h reports scores :
  Forall2 (λ l s, score_key h l = Ok s) reports scores →
  let out := (sorted_desc fst (zip scores reports)).*2 in
  rank_players h reports = Ok (foldl set_rank h (enumerate 1 out), out)
  ∧ out ≡ₚ reports
  ∧ StronglySorted (score_desc h) out
  ∧ (∀ s, with_score h s out = with_score h s reports).
Proof.
  intros HF out.
  assert (length reports ≤ length scores)%nat as Hlen.
  { by rewrite (Forall2_length _ _ _ HF). }
  assert (keyed h (sorted_desc fst (zip scores reports))) as Hk.
  { eapply keyed_perm; [symmetry; apply sorted_desc_perm|by apply keyed_zip]. }
  split_and!.
  - unfold rank_players. rewrite (sort_keys_scores _ _ _ HF), bind_Ok.
    replace (zip (VInt <$> scores) reports)
      with (prod_map VInt id <$> zip scores reports)
      by (by rewrite prod_map_zip, list_fmap_id).
    rewrite sorted_reverse_int, bind_Ok. cbv zeta.
    replace ((prod_map VInt id <$> sorted_desc fst (zip scores reports)).*2)
      with out; [done|].
    unfold out. rewrite <- list_fmap_compose. by apply list_fmap_ext.
  - unfold out. by rewrite sorted_desc_perm, snd_zip.
  - apply keyed_sorted; [done|apply sorted_desc_sorted].
  - intros s. unfold out.
    rewrite <- (keyed_with_score h) by done.
    rewrite sorted_desc_stable.
    rewrite (keyed_with_score h) by by apply keyed_zip.
    by rewrite snd_zip.
Qed.

(** the store after [rank_players]: every object of the batch has its
    rank written, nothing else changes *)
Lemma rank_players_store h reports h' out :
  rank_players h reports = Ok (h', out) →
  out ≡ₚ reports
  ∧ h' = foldl set_rank h (enumerate 1 out)
  ∧ ∃ keys decorated,
      Forall2 (λ l k, sort_key h l = Ok k) reports keys
      ∧ sorted_reverse (zip keys reports) = Ok decorated
      ∧ out = decorated.*2.
Proof.
  unfold rank_players.
  destruct (map_result (sort_key h) reports) as [keys|e] eqn:Hm; simpl; [|done].
  destruct (sorted_reverse (zip keys reports)) as [decorated|e] eqn:Hs; simpl;
    [|done].
  intros [= <- <-]. apply map_result_Ok in Hm. split_and!; [|done|by eauto].
  rewrite (sorted_reverse_perm _ _ Hs), snd_zip; [done|].
  by rewrite (Forall2_length _ _ _ Hm).
Qed.

(** C2. [rank_players] returns the reports of the batch in descending
    order of score, reports of equal score in their batch order, and
    writes rank 1 + index on the report at each index of the result; on
    scores 50, 90, 90, 70 the result has scores 90, 90, 70, 50 and ranks
    1, 2, 3, 4, the two reports of score 90 in their batch order.  The
    reports of a batch are distinct objects with an integer score. *)
Theorem rank_players_sorted_stable :
  (∀ (h : gmap loc (gmap string value)) (reports : list loc) (scores : list Z),
     NoDup reports →
     Forall2 (λ l s, score_key h l = Ok s) reports scores →
     ∃ h' out,
       rank_players h reports = Ok (h', out)
       ∧ out ≡ₚ reports
       ∧ StronglySorted (score_desc h') out
       ∧ (∀ s, with_score h' s out = with_score h' s reports)
       ∧ (∀ i l, out !! i = Some l →
                 field h' l "rank" = Some (VInt (1 + Z.of_nat i)))
       ∧ (∀ l, score_key h' l = score_key h l))
  ∧ (∃ h', rank_players batch_heap batch = Ok (h', [2; 3; 4; 1]%positive)
       ∧ score_key h' <$> [2; 3; 4; 1]%positive = Ok <$> [90; 90; 70; 50]
       ∧ (λ l, field h' l "rank") <$> [2; 3; 4; 1]%positive
         = Some ∘ VInt <$> [1; 2; 3; 4]).
Proof.
  split.
  - intros h reports scores Hnd HF.
    destruct (rank_players_Ok _ _ _ HF) as (Hrun & Hperm & Hsorted & Hstable).
    set (out := (sorted_desc fst (zip scores reports)).*2) in *.
    set (h' := foldl set_rank h (enumerate 1 out)) in *.
    assert (∀ l, score_key h' l = score_key h l) as Hframe.
    { intros l. apply score_key_rank_frame. unfold h'.
      destruct (decide (l ∈ out)) as [Hin|Hnin].
      - right. destruct (foldl_set_rank_elem out 1 h l Hin) as (r & _ & Hr). eauto.
      - left. by apply foldl_set_rank_other. }
    exists h', out. split_and!; try done.
    + eapply StronglySorted_mono; [|exact Hsorted].
      intros a b (sa & sb & Ha & Hb & Hle). exists sa, sb.
      by rewrite !Hframe.
    + intros s. unfold with_score.
      rewrite !(list_filter_iff (λ r, score_key h' r = Ok s)
                                (λ r, score_key h r = Ok s))
        by (intros r; by rewrite Hframe).
      apply Hstable.
    + intros i l Hi. unfold field, h'.
      rewrite (foldl_set_rank_index out 1 h i l); [|by rewrite Hperm|done].
      assert (l ∈ reports) as Hin.
      { rewrite <- Hperm. by eapply list_elem_of_lookup_2. }
      apply list_elem_of_lookup in Hin as [j Hj].
      destruct (Forall2_lookup_l _ _ _ _ _ HF Hj) as (s & _ & Hs).
      apply score_key_Ok_inv in Hs as (d & -> & _). simpl.
      by rewrite lookup_insert_eq.
  - exists (foldl set_rank batch_heap (enumerate 1 [2; 3; 4; 1]%positive)).
    split; [|split; vm_compute; reflexivity].
    apply (rank_players_Ok batch_heap batch [50; 90; 90; 70]).
    repeat constructor.
Qed.

Lemma rank_players_sorted_stable_witness :
  ∃ h' out,
    rank_players batch_heap batch = Ok (h', out)
    ∧ out ≡ₚ batch
    ∧ StronglySorted (score_desc h') out
    ∧ (∀ s, with_score h' s out = with_score h' s batch)
    ∧ (∀ i l, out !! i = Some l →
              field h' l "rank" = Some (VInt (1 + Z.of_nat i)))
    ∧ (∀ l, score_key h' l = score_key batch_heap l).
Proof.
  apply (proj1 rank_players_sorted_stable batch_heap batch [50; 90; 90; 70]).
  - unfold batch. by apply (bool_decide_unpack (NoDup _)).
  - unfold batch. repeat constructor.
Defined.

(** C10. [rank_players] works in place: the returned list holds the
    addresses of the very objects passed in, no object is created, each
    object of the batch gets its [rank] key written, and every other key
    of every object keeps its value. *)
Theorem rank_players_in_place
    (h : gmap loc (gmap string value)) (reports : list loc)
    (h' : gmap loc (gmap string value)) (out : list loc) :
  rank_players h reports = Ok (h', out) →
  out ≡ₚ reports
  ∧ dom h' = dom h
  ∧ (∀ l, l ∈ reports →
          ∃ d r, h !! l = Some d
                 ∧ 1 ≤ r ≤ Z.of_nat (length reports)
                 ∧ h' !! l = Some (<["rank" := VInt r]> d))
  ∧ (∀ l, l ∉ reports → h' !! l = h !! l)
  ∧ (∀ l k, k ≠ "rank" → field h' l k = field h l k).
Proof.
  intros Hrun.
  apply rank_players_store in Hrun as (Hperm & -> & keys & _ & HF & _ & _).
  assert (∀ l, l ∈ reports →
            ∃ d r, h !! l = Some d ∧ 1 ≤ r ≤ Z.of_nat (length reports)
              ∧ foldl set_rank h (enumerate 1 out) !! l
                = Some (<["rank" := VInt r]> d)) as Hin.
  { intros l Hl. apply list_elem_of_lookup in Hl as Hj. destruct Hj as [j Hj].
    destruct (Forall2_lookup_l _ _ _ _ _ HF Hj) as (s & _ & Hs).
    apply sort_key_Ok_inv in Hs as (d & Hd & _).
    rewrite <- Hperm in Hl.
    destruct (foldl_set_rank_elem out 1 h l Hl) as (r & Hr & Hlook).
    exists d, r. rewrite Hlook, Hd. rewrite Hperm in Hr. split_and!; [done|lia..|done]. }
  assert (∀ l, l ∉ reports → foldl set_rank h (enumerate 1 out) !! l = h !! l)
    as Hout.
  { intros l Hl. apply foldl_set_rank_other. by rewrite Hperm. }
  split_and!; try done.
  - apply set_eq. intros l. rewrite !elem_of_dom.
    destruct (decide (l ∈ reports)) as [Hl|Hl].
    + destruct (Hin l Hl) as (d & r & -> & _ & ->). split; eauto.
    + by rewrite Hout.
  - intros l k Hk. unfold field.
    destruct (decide (l ∈ reports)) as [Hl|Hl].
    + destruct (Hin l Hl) as (d & r & -> & _ & ->). simpl.
      by rewrite lookup_insert_ne.
    + by rewrite Hout.
Qed.

Lemma rank_players_in_place_witness :
  ∃ h' out,
    rank_players batch_heap batch = Ok (h', out)
    ∧ out ≡ₚ batch
    ∧ dom h' = dom batch_heap
    ∧ (∀ l k, k ≠ "rank" → field h' l k = field batch_heap l k).
Proof.
  assert (rank_players batch_heap batch
          = Ok (foldl set_rank batch_heap (enumerate 1 [2; 3; 4; 1]%positive),
                [2; 3; 4; 1]%positive)) as Hrun.
  { apply (rank_players_Ok batch_heap batch [50; 90; 90; 70]).
    repeat constructor. }
  eexists _, _. split; [exact Hrun|].
  destruct (rank_players_in_place _ _ _ _ Hrun) as (Hp & Hd & _ & _ & Hf).
  exact (conj Hp (conj Hd Hf)).
Defined.

(** C8. On the empty batch nothing raises: [rank_players] returns the
    empty list and leaves the store alone, and [generate_summary] returns
    0 players, an empty tier distribution, an empty top list and no
    [average_score] key. *)
Theorem empty_batch_total (h : gmap loc (gmap string value)) :
  rank_players h [] = Ok (h, [])
  ∧ generate_summary h []
    = Ok {| total_players := 0; tier_distribution := ∅;
            top_3_players := []; average_score := None |}.
Proof. split; reflexivity. Qed.

(** ** True division: the rounding error of one quotient *)

Section TrueDivision.
Import PyFloat.

Lemma rne_spec N D : 0 < D → - D ≤ 2 * (rne N D * D - N) ≤ D.
Proof.
  intros HD. unfold rne.
  pose proof (Z.div_mod N D ltac:(lia)) as Hdm.
  pose proof (Z.mod_pos_bound N D HD) as Hr.
  destruct (Z.compare_spec (2 * (N mod D)) D);
    [destruct (Z.even (N / D))|..]; nia.
Qed.

Lemma inject_Z_pos z : 0 < z → (0 < inject_Z z)%Q.
Proof. intros Hz. change 0%Q with (inject_Z 0). by rewrite <- Zlt_Qlt. Qed.

(** rounding moves a rational by at most one half *)
Lemma rne_half N D :
  0 < D → (Qabs (inject_Z (rne N D) - inject_Z N / inject_Z D) <= 1 # 2)%Q.
Proof.
  intros HD. pose proof (rne_spec N D HD) as [Hl Hu].
  pose proof (inject_Z_pos D HD) as Hd.
  rewrite Zle_Qle in Hl, Hu. rewrite inject_Z_mult in Hl, Hu.
  set (m := inject_Z (rne N D)) in *. set (d := inject_Z D) in *.
  set (x := (inject_Z N / d)%Q).
  assert (inject_Z N == x * d)%Q as HN by (unfold x; field; lra).
  assert (inject_Z (- D) == - d)%Q as Ho.
  { unfold d. rewrite inject_Z_opp. reflexivity. }
  assert (inject_Z (rne N D * D - N) == m * d - inject_Z N)%Q as Hm.
  { unfold Z.sub, m, d.
    rewrite inject_Z_plus, inject_Z_mult, inject_Z_opp. reflexivity. }
  change (inject_Z 2) with 2%Q in *.
  apply Qabs_Qle_condition. split; apply Qnot_lt_le; intros Hc.
  - assert (d * (m - x) < d * - (1 # 2))%Q by (by apply Qmult_lt_l). lra.
  - assert (d * (1 # 2) < d * (m - x))%Q by (by apply Qmult_lt_l). lra.
Qed.

Lemma pow2_pos e : (0 < 2 ^ e)%Q.
Proof. by apply Qpower_0_lt. Qed.

Lemma pow2_le e1 e2 : e1 ≤ e2 → (2 ^ e1 <= 2 ^ e2)%Q.
Proof. intros. apply Qpower_le_compat_l; [done|lra]. Qed.

Lemma scaled_spec a b e :
  0 < b →
  0 < (scaled a b e).2
  ∧ (inject_Z (scaled a b e).1 / inject_Z (scaled a b e).2 * 2 ^ e
     == inject_Z a / inject_Z b)%Q.
Proof.
  intros Hb. unfold scaled.
  pose proof (inject_Z_pos b Hb) as Hb'. pose proof (pow2_pos e) as He.
  destruct (Z.leb_spec 0 e) as [Hpos|Hneg]; cbn [fst snd].
  - split; [by apply Z.mul_pos_pos, Z.pow_pos_nonneg|].
    rewrite inject_Z_mult, Zpower_Qpower by done.
    change (inject_Z 2) with 2%Q. field. split; lra.
  - split; [done|].
    rewrite inject_Z_mult, Zpower_Qpower by lia.
    change (inject_Z 2) with 2%Q. rewrite Qpower_opp. field. split; lra.
Qed.

(** the nearest double is within half a unit of its last bit *)
Lemma nearest_double_error a b :
  0 < b →
  (Qabs (nearest_double a b - inject_Z a / inject_Z b)
   <= 2 ^ double_exponent a b * (1 # 2))%Q.
Proof.
  intros Hb. unfold nearest_double.
  set (e := double_exponent a b).
  destruct (scaled_spec a b e Hb) as [HD Heq].
  destruct (scaled a b e) as [N D]. cbn [fst snd] in HD, Heq.
  pose proof (pow2_pos e) as He.
  rewrite <- Heq.
  setoid_replace
    (inject_Z (rne N D) * 2 ^ e - inject_Z N / inject_Z D * 2 ^ e)%Q
    with ((inject_Z (rne N D) - inject_Z N / inject_Z D) * 2 ^ e)%Q
    using relation Qeq by ring.
  rewrite Qabs_Qmult, (Qabs_pos (2 ^ e)) by lra.
  rewrite (Qmult_comm (2 ^ e)).
  apply Qmult_le_compat_r; [by apply rne_half | lra].
Qed.

(** a quotient of at most 100 has its last bit at 2^-45 or below *)
Lemma double_exponent_small a b :
  0 < a → 0 < b → a ≤ 100 * b → double_exponent a b ≤ -45.
Proof.
  intros Ha Hb Hab. unfold double_exponent.
  assert (Z.log2 a ≤ 7 + Z.log2 b) as Hlog.
  { rewrite <- Z.log2_mul_pow2 by lia.
    apply Z.log2_le_mono. change (2 ^ 7) with 128. lia. }
  destruct (scaled _ _ _) as [N D]. destruct (N <? D * 2 ^ 53); lia.
Qed.

Lemma truediv_bounded a b :
  0 ≤ a → 0 < b → a ≤ 100 * b →
  ∃ v, truediv a b = Ok v
       ∧ (Qabs (v - inject_Z a / inject_Z b) <= 2 ^ (-46))%Q.
Proof.
  intros Ha Hb Hab. unfold truediv.
  destruct (Z.eqb_spec b 0) as [|_]; [lia|].
  destruct (Z.eqb_spec a 0) as [->|Hne].
  - exists 0%Q. split; [done|].
    setoid_replace (0 - inject_Z 0 / inject_Z b)%Q with 0%Q
      using relation Qeq by (unfold Qeq; simpl; lia).
    apply Qlt_le_weak, pow2_pos.
  - rewrite !Z.abs_eq by lia.
    pose proof (nearest_double_error a b Hb) as Herr.
    pose proof (double_exponent_small a b ltac:(lia) Hb Hab) as He.
    apply pow2_le in He.
    assert (2 ^ (-45) * (1 # 2) == 2 ^ (-46))%Q as H46 by reflexivity.
    assert (Qabs (nearest_double a b - inject_Z a / inject_Z b)
            <= 2 ^ (-46))%Q as Hclose.
    { rewrite <- H46. eapply Qle_trans; [exact Herr|].
      apply Qmult_le_compat_r; [done|lra]. }
    assert (inject_Z a / inject_Z b <= 100)%Q as Hq.
    { apply Qle_shift_div_r; [by apply inject_Z_pos|].
      change 100%Q with (inject_Z 100).
      rewrite <- inject_Z_mult, <- Zle_Qle. lia. }
    destruct (Qle_bool (2 ^ 1024) (nearest_double a b)) eqn:Hover.
    + exfalso. apply Qle_bool_iff in Hover.
      apply Qabs_Qle_condition in Hclose as [_ Hup].
      assert (2 ^ (-46) <= 1)%Q as Hs by (by vm_compute).
      assert (2 ^ 7 <= 2 ^ 1024)%Q as Hbig by (by apply pow2_le).
      assert (2 ^ 7 == 128)%Q as H7 by reflexivity.
      lra.
    + assert (Z.sgn a * Z.sgn b = 1) as -> by lia.
      eexists. split; [reflexivity|done].
Qed.

End TrueDivision.

(** ** The batch summary *)

Lemma count_sum_insert (m : gmap value nat) (k : value) :
  count_sum (<[k := (default 0 (m !! k) + 1)%nat]> m) = S (count_sum m).
Proof.
  unfold count_sum.
  destruct (m !! k) as [c|] eqn:Hk; simpl.
  - rewrite <- insert_delete_eq.
    rewrite map_fold_insert_L; [|intros; lia|by rewrite lookup_delete_eq].
    rewrite (map_fold_delete_L _ _ k c m); [lia|intros; lia|done].
  - rewrite map_fold_insert_L; [lia|intros; lia|done].
Qed.

Lemma count_tier_ranked h tc l :
  ranked_report h l →
  ∃ t, count_tier h tc l = Ok (<[t := (default 0 (tc !! t) + 1)%nat]> tc).
Proof.
  intros (d & s & t & Hd & _ & _ & Ht & Hhash & _).
  exists t. unfold count_tier, deref, getitem.
  rewrite Hd; simpl. rewrite Ht; simpl.
  destruct t as [n|x|r]; [done..|by destruct (Hhash r)].
Qed.

Lemma score_key_ranked h l :
  ranked_report h l → ∃ s, score_key h l = Ok s ∧ 0 ≤ s ≤ 100.
Proof.
  intros (d & s & t & Hd & Hs & Hrange & _).
  exists s. unfold score_key, deref, getitem.
  rewrite Hd; simpl. by rewrite Hs.
Qed.

Lemma top_entry_ranked h l :
  ranked_report h l → ∃ e, top_entry h l = Ok e.
Proof.
  intros (d & s & t & Hd & Hs & _ & Ht & _ & [r Hr] & [n Hn] & [p Hp]).
  unfold top_entry, deref, getitem.
  rewrite Hd; simpl. rewrite Hr, Hn, Hp, Hs, Ht; simpl. by eexists.
Qed.

Lemma count_tiers_total h reports tc0 :
  Forall (ranked_report h) reports →
  ∃ tc, fold_result (count_tier h) tc0 reports = Ok tc
        ∧ count_sum tc = (count_sum tc0 + length reports)%nat.
Proof.
  intros HF. revert tc0.
  induction HF as [|l reports Hl HF IH]; intros tc0; simpl.
  - exists tc0. split; [done|lia].
  - destruct (count_tier_ranked h tc0 l Hl) as [t ->]; simpl.
    destruct (IH (<[t := (default 0 (tc0 !! t) + 1)%nat]> tc0))
      as (tc & Hrun & Hsum).
    exists tc. rewrite count_sum_insert in Hsum. split; [done|lia].
Qed.

Lemma top_entries_total h reports :
  Forall (ranked_report h) reports →
  ∃ es, map_result (top_entry h) reports = Ok es.
Proof.
  induction 1 as [|l reports Hl HF [es IH]]; simpl; [by eexists|].
  destruct (top_entry_ranked h l Hl) as [e ->]; simpl.
  rewrite IH; simpl. by eexists.
Qed.

Lemma scores_total h reports :
  Forall (ranked_report h) reports →
  ∃ scores, map_result (score_key h) reports = Ok scores
            ∧ Forall (λ s, 0 ≤ s ≤ 100) scores.
Proof.
  induction 1 as [|l reports Hl HF (scores & IH & Hr)]; simpl.
  - by exists [].
  - destruct (score_key_ranked h l Hl) as (s & -> & Hrange); simpl.
    rewrite IH; simpl. exists (s :: scores). split; [done|by constructor].
Qed.

Lemma py_sum_foldr l : py_sum l = foldr Z.add 0 l.
Proof.
  unfold py_sum. assert (∀ acc, foldl Z.add acc l = acc + foldr Z.add 0 l) as H.
  { induction l as [|x l IH]; intros acc; simpl; [lia|]. rewrite IH. lia. }
  by rewrite H.
Qed.

Lemma sum_in_range l :
  Forall (λ s, 0 ≤ s ≤ 100) l →
  0 ≤ foldr Z.add 0 l ≤ 100 * Z.of_nat (length l).
Proof. induction 1; simpl; lia. Qed.

Lemma score_key_field h l x :
  score_key h l = Ok x → field h l "score" = Some (VInt x).
Proof.
  unfold score_key, field, deref, getitem.
  destruct (h !! l) as [d|]; simpl; [|done].
  destruct (d !! "score") as [[n| |]|]; simpl; try done. by intros [= ->].
Qed.

(** C7. On a non-empty batch of ranked reports the counts of
    [tier_distribution] add up to [total_players], the length of the
    batch, and [average_score] is within 1e-9 of the arithmetic mean of
    the scores of the batch. *)
Theorem summary_counts_and_mean
    (h : gmap loc (gmap string value)) (reports : list loc) :
  reports ≠ [] →
  Forall (ranked_report h) reports →
  ∃ s scores average,
    generate_summary h reports = Ok s
    ∧ total_players s = length reports
    ∧ count_sum (tier_distribution s) = total_players s
    ∧ Forall2 (λ l x, field h l "score" = Some (VInt x)) reports scores
    ∧ average_score s = Some average
    ∧ (Qabs (average - arithmetic_mean scores) <= 1 # 1000000000)%Q.
Proof.
  intros Hne HF.
  destruct (count_tiers_total h reports ∅ HF) as (tc & Htc & Hsum).
  destruct (top_entries_total h (take 3 reports) (Forall_take _ 3%nat _ HF))
    as (es & Hes).
  destruct (scores_total h reports HF) as (scores & Hscores & Hrange).
  pose proof (map_result_length _ _ _ Hscores) as Hlen.
  pose proof (sum_in_range _ Hrange) as Hs. rewrite Hlen in Hs.
  assert (0 < Z.of_nat (length reports)) as Hpos.
  { destruct reports; [done|simpl; lia]. }
  destruct (truediv_bounded (py_sum scores) (Z.of_nat (length reports)))
    as (avg & Havg & Herr); [rewrite ?py_sum_foldr; lia..|].
  exists {| total_players := length reports; tier_distribution := tc;
            top_3_players := es; average_score := Some avg |}, scores, avg.
  split_and!; try done.
  - unfold generate_summary. destruct reports as [|l reports]; [done|].
    by rewrite Htc, bind_Ok, Hes, bind_Ok, Hscores, bind_Ok, Havg, bind_Ok.
  - apply map_result_Ok in Hscores.
    eapply Forall2_impl; [exact Hscores|]. simpl.
    intros l x Hx. by apply score_key_field.
  - unfold arithmetic_mean. rewrite Hlen, <- py_sum_foldr.
    eapply Qle_trans; [exact Herr|]. by vm_compute.
Qed.

Lemma summary_counts_and_mean_witness :
  ∃ s scores average,
    generate_summary ranked.1 ranked.2 = Ok s
    ∧ total_players s = length ranked.2
    ∧ count_sum (tier_distribution s) = total_players s
    ∧ Forall2 (λ l x, field ranked.1 l "score" = Some (VInt x)) ranked.2 scores
    ∧ average_score s = Some average
    ∧ (Qabs (average - arithmetic_mean scores) <= 1 # 1000000000)%Q.
Proof.
  apply (summary_counts_and_mean ranked.1 ranked.2); [done|].
  unfold ranked; cbn [fst snd].
  repeat apply Forall_cons_2; [..|apply Forall_nil_2]; unfold ranked_report.
  - exists (<["rank" := VInt 1]> (report_of "p2" 90)), 90, (VStr "S").
    split_and!; [by simplify_map_eq|by vm_compute|lia|lia|by vm_compute|done
                |eexists; by vm_compute..].
  - exists (<["rank" := VInt 2]> (report_of "p3" 90)), 90, (VStr "S").
    split_and!; [by simplify_map_eq|by vm_compute|lia|lia|by vm_compute|done
                |eexists; by vm_compute..].
  - exists (<["rank" := VInt 3]> (report_of "p4" 70)), 70, (VStr "B").
    split_and!; [by simplify_map_eq|by vm_compute|lia|lia|by vm_compute|done
                |eexists; by vm_compute..].
  - exists (<["rank" := VInt 4]> (report_of "p1" 50)), 50, (VStr "D").
    split_and!; [by simplify_map_eq|by vm_compute|lia|lia|by vm_compute|done
                |eexists; by vm_compute..].
Defined.

(** ** The [generate_score] methods of the providers *)

Section ScoreTextFacts.
Import Providers.
Context {char : Type}.
Variable digit_value : char → option Z.
Variable is_space : char → bool.
Variable max_str_digits : option nat.

Local Abbreviation is_digit := (is_digit digit_value).
Local Abbreviation re_search_digits := (re_search_digits digit_value).
Local Abbreviation digits_prefix := (digits_prefix digit_value).
Local Abbreviation score_from_text := (score_from_text digit_value max_str_digits).

Lemma score_from_text_range text s :
  score_from_text text = Ok s → 0 ≤ s ≤ 100.
Proof.
  unfold Providers.score_from_text, py_int.
  destruct (re_search_digits text) as [group|]; [|intros [= <-]; lia].
  destruct max_str_digits as [n|]; [destruct (n <? length group)%nat|];
    simpl; intros [= <-]; lia.
Qed.

Lemma try_score_range (m : result Z) :
  (∀ s, m = Ok s → 0 ≤ s ≤ 100) → 0 ≤ try_except m 50 ≤ 100.
Proof. destruct m as [s|e]; simpl; [by auto | lia]. Qed.

Lemma re_search_digits_None text :
  re_search_digits text = None ↔ Forall (λ c, is_digit c = false) text.
Proof.
  induction text as [|c text IH]; simpl.
  - split; [constructor | done].
  - destruct (is_digit c) eqn:Hc.
    + split; [done|]. inversion 1; congruence.
    + rewrite IH. split; [by constructor | by inversion 1].
Qed.

Lemma digits_prefix_run ds rest :
  Forall (λ c, is_digit c = true) ds →
  head (is_digit <$> rest) ≠ Some true →
  digits_prefix (ds ++ rest) = ds.
Proof.
  intros Hds Hrest. induction Hds as [|c ds Hc Hds IH]; simpl.
  - destruct rest as [|c rest]; simpl in *; [done|].
    destruct (is_digit c); [done|done].
  - rewrite Hc. by rewrite IH.
Qed.

(** [re.search] returns the first run of digits, whole *)
Lemma re_search_digits_first_run pre ds rest :
  Forall (λ c, is_digit c = false) pre →
  ds ≠ [] →
  Forall (λ c, is_digit c = true) ds →
  head (is_digit <$> rest) ≠ Some true →
  re_search_digits (pre ++ ds ++ rest) = Some ds.
Proof.
  intros Hpre Hne Hds Hrest.
  induction Hpre as [|c pre Hc Hpre IH]; simpl.
  - destruct Hds as [|c ds Hc Hds]; [done|]. simpl. rewrite Hc.
    by rewrite digits_prefix_run.
  - by rewrite Hc.
Qed.

End ScoreTextFacts.

Section BuiltinProviders.
Import Providers.
Context {char : Type}.
Variable digit_value : char → option Z.
Variable is_space : char → bool.
Variable max_str_digits : option nat.

Local Abbreviation anthropic := (anthropic_generate_score digit_value is_space max_str_digits).
Local Abbreviation openai := (openai_generate_score digit_value is_space max_str_digits).
Local Abbreviation ollama := (ollama_generate_score digit_value is_space max_str_digits).

Lemma generate_score_in_range
    (reply : result (list char)) (http : result (Z * option (list char))) :
  0 ≤ anthropic reply ≤ 100
  ∧ 0 ≤ openai reply ≤ 100
  ∧ 0 ≤ ollama http ≤ 100.
Proof.
  split; [|split].
  - apply try_score_range. intros s. destruct reply as [text|e]; [|done].
    apply score_from_text_range.
  - apply try_score_range. intros s. destruct reply as [text|e]; [|done].
    apply score_from_text_range.
  - apply try_score_range. intros s.
    destruct http as [[status body]|e]; simpl; [|done].
    destruct (status =? 200); [apply score_from_text_range|].
    intros [= <-]; lia.
Qed.

(** X1. Whatever the model replies, and whether or not the call raises,
    the [generate_score] of each of the three providers returns an
    integer between 0 and 100. *)
Theorem builtin_generate_score_range
    (reply : result (list char)) (http : result (Z * option (list char))) :
  0 ≤ anthropic reply ≤ 100
  ∧ 0 ≤ openai reply ≤ 100
  ∧ 0 ≤ ollama http ≤ 100.
Proof.
  unfold anthropic_generate_score, openai_generate_score, ollama_generate_score.
  split; [|split]; apply try_score_range; intros s.
  - destruct reply as [text|e]; [apply score_from_text_range | done].
  - destruct reply as [text|e]; [apply score_from_text_range | done].
  - destruct http as [[status body]|e]; simpl; [|done].
    destruct (status =? 200); [apply score_from_text_range|].
    intros [= <-]; lia.
Qed.

(** X2. Every path on which no number can be read ends in the default
    50: the call raises, Ollama answers with a status other than 200 or
    without a [response] field, the stripped reply holds no digit, or
    [int()] refuses the run of digits for its length. *)
Theorem builtin_generate_score_default
    (e : exn) (status : Z) (body : option (list char)) (text : list char)
    (long : list char) (limit : nat) :
  status ≠ 200 →
  Forall (λ c, is_digit digit_value c = false) (strip is_space text) →
  re_search_digits digit_value (strip is_space long) ≠ None →
  (∀ ds, re_search_digits digit_value (strip is_space long) = Some ds →
         (limit < length ds)%nat) →
  anthropic (Raise e) = 50
  ∧ openai (Raise e) = 50
  ∧ ollama (Raise e) = 50
  ∧ ollama (Ok (status, body)) = 50
  ∧ ollama (Ok (200, None)) = 50
  ∧ anthropic (Ok text) = 50
  ∧ openai (Ok text) = 50
  ∧ ollama (Ok (200, Some text)) = 50
  ∧ anthropic_generate_score digit_value is_space (Some limit) (Ok long) = 50
  ∧ openai_generate_score digit_value is_space (Some limit) (Ok long) = 50
  ∧ ollama_generate_score digit_value is_space (Some limit)
      (Ok (200, Some long)) = 50.
Proof.
  intros Hstatus Hnone Hsome Hlong.
  apply re_search_digits_None in Hnone.
  assert (score_from_text digit_value (Some limit) (strip is_space long)
          = Raise ValueError) as Hrefused.
  { unfold score_from_text, py_int.
    destruct (re_search_digits digit_value (strip is_space long)) as [ds|] eqn:Hds;
      [|done].
    specialize (Hlong ds eq_refl). apply Nat.ltb_lt in Hlong.
    by rewrite Hlong. }
  split_and!; try reflexivity.
  - unfold ollama_generate_score; simpl.
    by destruct (Z.eqb_spec status 200).
  - unfold anthropic_generate_score, score_from_text; simpl. by rewrite Hnone.
  - unfold openai_generate_score, score_from_text; simpl. by rewrite Hnone.
  - unfold ollama_generate_score, score_from_text; simpl. by rewrite Hnone.
  - unfold anthropic_generate_score; simpl. by rewrite Hrefused.
  - unfold openai_generate_score; simpl. by rewrite Hrefused.
  - unfold ollama_generate_score; simpl. by rewrite Hrefused.
Qed.

(** X3. When the stripped reply is some text without digits, then a
    non-empty run of digits, then either nothing or text starting with a
    non-digit, the score is the number that run denotes, clamped to
    0..100 (provided [int()] accepts the length of the run). *)
Theorem builtin_generate_score_first_run
    (text pre ds rest : list char) :
  strip is_space text = pre ++ ds ++ rest →
  Forall (λ c, is_digit digit_value c = false) pre →
  ds ≠ [] →
  Forall (λ c, is_digit digit_value c = true) ds →
  head (is_digit digit_value <$> rest) ≠ Some true →
  (∀ n, max_str_digits = Some n → (length ds ≤ n)%nat) →
  let clamped := Z.max 0 (Z.min 100 (int_of_digits digit_value ds)) in
  anthropic (Ok text) = clamped
  ∧ openai (Ok text) = clamped
  ∧ ollama (Ok (200, Some text)) = clamped.
Proof.
  intros Hstrip Hpre Hne Hds Hrest Hlen clamped.
  assert (score_from_text digit_value max_str_digits (strip is_space text)
          = Ok clamped) as Hscore.
  { unfold score_from_text. rewrite Hstrip.
    rewrite (re_search_digits_first_run digit_value pre ds rest) by done.
    unfold py_int. destruct max_str_digits as [n|]; [|done].
    specialize (Hlen n eq_refl). apply Nat.ltb_ge in Hlen. by rewrite Hlen. }
  unfold anthropic_generate_score, openai_generate_score, ollama_generate_score.
  simpl. by rewrite Hscore.
Qed.

End BuiltinProviders.

Lemma builtin_generate_score_default_witness :
  Providers.anthropic_generate_score Providers.ascii_digit_value
    Providers.ascii_is_space None (Ok (Providers.chars "  excellent skater "))
  = 50
  ∧ Providers.ollama_generate_score Providers.ascii_digit_value
      Providers.ascii_is_space None (Ok (404, None)) = 50
  ∧ Providers.anthropic_generate_score Providers.ascii_digit_value
      Providers.ascii_is_space (Some 2%nat) (Ok (Providers.chars "score 100")) = 50.
Proof.
  destruct (builtin_generate_score_default Providers.ascii_digit_value
              Providers.ascii_is_space None ValueError 404 None
              (Providers.chars "  excellent skater ")
              (Providers.chars "score 100") 2)
    as (_ & _ & _ & H404 & _ & Htext & _ & _ & Hlong & _ & _).
  - lia.
  - by vm_compute; repeat constructor.
  - by vm_compute.
  - vm_compute. intros ds [= <-]. simpl. lia.
  - exact (conj Htext (conj H404 Hlong)).
Defined.

Lemma builtin_generate_score_first_run_witness :
  Providers.anthropic_generate_score Providers.ascii_digit_value
    Providers.ascii_is_space (Some 4300%nat)
    (Ok (Providers.chars " Score: 150/100 ")) = 100
  ∧ Providers.openai_generate_score Providers.ascii_digit_value
    Providers.ascii_is_space (Some 4300%nat)
    (Ok (Providers.chars "-87")) = 87.
Proof.
  split.
  - apply (builtin_generate_score_first_run Providers.ascii_digit_value
             Providers.ascii_is_space (Some 4300%nat)
             (Providers.chars " Score: 150/100 ")
             (Providers.chars "Score: ") (Providers.chars "150")
             (Providers.chars "/100")).
    + by vm_compute.
    + by vm_compute; repeat constructor.
    + done.
    + by vm_compute; repeat constructor.
    + by vm_compute.
    + intros n [= <-]. simpl. lia.
  - apply (builtin_generate_score_first_run Providers.ascii_digit_value
             Providers.ascii_is_space (Some 4300%nat)
             (Providers.chars "-87")
             (Providers.chars "-") (Providers.chars "87") []).
    + by vm_compute.
    + by vm_compute; repeat constructor.
    + done.
    + by vm_compute; repeat constructor.
    + by vm_compute.
    + intros n [= <-]. simpl. lia.
Defined.


(** ** More on the tier classifier and the report generator *)

Lemma tier_grade_mono (s1 s2 : Z) :
  s1 ≤ s2 →
  (tier_grade (_score_to_tier s1) ≤ tier_grade (_score_to_tier s2))%nat.
Proof.
  intros Hle. unfold _score_to_tier. rewrite !Z.geb_leb.
  case_leb; first [lia | vm_compute; lia].
Qed.

(** X4. The classifier is monotone: a higher score never gets a worse
    tier. *)
Theorem score_to_tier_monotone (s1 s2 : Z) :
  s1 ≤ s2 →
  (tier_grade (_score_to_tier s1) ≤ tier_grade (_score_to_tier s2))%nat.
Proof.
  intros Hle. unfold _score_to_tier, tier_grade. rewrite !Z.geb_leb.
  case_leb; first [lia | simpl; lia].
Qed.

Lemma score_to_tier_monotone_witness :
  (tier_grade (_score_to_tier 79) ≤ tier_grade (_score_to_tier 80))%nat.
Proof. apply score_to_tier_monotone. lia. Defined.

Section FreshReports.
Context {prompt : Type}.
Variable generate_player_prompt : string → string → loc → prompt.

Local Abbreviation report := (generate_player_report generate_player_prompt).

Lemma report_score p n pos m :
  report p n pos m !! "score"
  = Some (VInt (generate_score p (generate_player_prompt n pos m))).
Proof. unfold generate_player_report. by simplify_map_eq. Qed.

Lemma report_tier p n pos m :
  report p n pos m !! "tier"
  = Some (VStr (_score_to_tier
                  (generate_score p (generate_player_prompt n pos m)))).
Proof. unfold generate_player_report. by simplify_map_eq. Qed.

Lemma report_rank p n pos m : report p n pos m !! "rank" = None.
Proof. unfold generate_player_report. by simplify_map_eq. Qed.

Local Abbreviation fresh_report := (fresh_report generate_player_prompt).

Lemma count_tier_fresh h tc l :
  fresh_report h l → ∃ tc', count_tier h tc l = Ok tc'.
Proof.
  intros (p & n & pos & m & Hl). unfold count_tier, deref, getitem.
  rewrite Hl; simpl. rewrite report_tier; simpl. by eexists.
Qed.

Lemma count_tiers_fresh h reports tc :
  Forall (fresh_report h) reports →
  ∃ tc', fold_result (count_tier h) tc reports = Ok tc'.
Proof.
  intros HF. revert tc. induction HF as [|l reports Hl HF IH]; intros tc; simpl.
  - by eexists.
  - destruct (count_tier_fresh h tc l Hl) as [tc' ->]; simpl. apply IH.
Qed.

Lemma top_entry_fresh h l :
  fresh_report h l → top_entry h l = Raise (KeyError "rank").
Proof.
  intros (p & n & pos & m & Hl). unfold top_entry, deref, getitem.
  rewrite Hl; simpl. by rewrite report_rank.
Qed.

(** X5. [generate_summary] needs ranked reports: on a non-empty batch of
    reports as [generate_player_report] returns them, before
    [rank_players] has run, it raises [KeyError('rank')]. *)
Theorem generate_summary_unranked
    (h : gmap loc (gmap string value)) (reports : list loc) :
  reports ≠ [] →
  Forall (fresh_report h) reports →
  generate_summary h reports = Raise (KeyError "rank").
Proof.
  intros Hne HF. unfold generate_summary.
  destruct reports as [|l reports]; [done|].
  destruct (count_tiers_fresh h (l :: reports) ∅ HF) as [tc ->].
  rewrite bind_Ok. cbn [take map_result].
  apply Forall_cons in HF as [Hl _].
  by rewrite (top_entry_fresh h l Hl).
Qed.

End FreshReports.

Lemma batch_fresh : Forall (fresh_report (λ n _ _, n) batch_heap) batch.
Proof.
  unfold batch, batch_heap, report_of.
  repeat apply Forall_cons_2; [..|apply Forall_nil_2];
    eexists _, _, _, _; by simplify_map_eq.
Qed.

Lemma generate_summary_unranked_witness :
  generate_summary batch_heap batch = Raise (KeyError "rank").
Proof.
  apply (generate_summary_unranked (λ n _ _, n) batch_heap batch);
    [done | apply batch_fresh].
Defined.

Section BuiltinReports.
Import Providers.
Context {char prompt : Type}.
Variable digit_value : char → option Z.
Variable is_space : char → bool.
Variable max_str_digits : option nat.
Variable generate_player_prompt : string → string → loc → prompt.

(** a report whose score is in 0..100 and whose tier is the one of
    that score *)
Local Abbreviation in_range_report := (λ r : gmap string value,
  ∃ s, r !! "score" = Some (VInt s) ∧ 0 ≤ s ≤ 100
       ∧ r !! "tier" = Some (VStr (_score_to_tier s))).

(** X6. With any of the three built-in providers behind it,
    [generate_player_report] returns a report whose score lies in
    0..100 and whose tier is the tier of that score, whatever the model
    replies. *)
Theorem builtin_report_in_range
    (report_of : prompt → string)
    (reply_to : prompt → result (list char))
    (http_reply_to : prompt → result (Z * option (list char)))
    (player_name position : string) (metrics : loc) :
  in_range_report
    (generate_player_report generate_player_prompt
       (anthropic_provider digit_value is_space max_str_digits report_of reply_to)
       player_name position metrics)
  ∧ in_range_report
    (generate_player_report generate_player_prompt
       (openai_provider digit_value is_space max_str_digits report_of reply_to)
       player_name position metrics)
  ∧ in_range_report
    (generate_player_report generate_player_prompt
       (ollama_provider digit_value is_space max_str_digits report_of http_reply_to)
       player_name position metrics).
Proof.
  set (p := generate_player_prompt player_name position metrics).
  destruct (generate_score_in_range digit_value is_space max_str_digits
              (reply_to p) (http_reply_to p)) as (Ha & Ho & Hl).
  split_and!; eexists; (split; [apply report_score|]);
    (split; [|apply report_tier]); simpl; done.
Qed.

End BuiltinReports.

(** ** More on the batch summary *)

Lemma generate_summary_Ok_inv h reports s :
  generate_summary h reports = Ok s →
  (reports = [] ∧ tier_distribution s = ∅ ∧ top_3_players s = [])
  ∨ (reports ≠ []
     ∧ fold_result (count_tier h) ∅ reports = Ok (tier_distribution s)
     ∧ map_result (top_entry h) (take 3 reports) = Ok (top_3_players s)).
Proof.
  unfold generate_summary. destruct reports as [|l reports].
  { intros [= <-]. by left. }
  destruct (fold_result _ _ _) as [tc|]; [|done]. rewrite bind_Ok.
  destruct (map_result (top_entry h) _) as [es|]; [|done]. rewrite bind_Ok.
  destruct (map_result (score_key h) _) as [scores|]; [|done]. rewrite bind_Ok.
  destruct (PyFloat.truediv _ _) as [avg|]; [|done]. rewrite bind_Ok.
  intros [= <-]. by right.
Qed.

Lemma count_tier_Ok_inv h tc l tc' :
  count_tier h tc l = Ok tc' →
  ∃ t, field h l "tier" = Some t
       ∧ tc' = <[t := (default 0 (tc !! t) + 1)%nat]> tc.
Proof.
  unfold count_tier, deref, getitem, field.
  destruct (h !! l) as [d|]; simpl; [|done].
  destruct (d !! "tier") as [t|]; simpl; [|done].
  destruct t; intros [= <-]; eauto.
Qed.

Lemma count_tiers_exact h reports tc0 tc :
  fold_result (count_tier h) tc0 reports = Ok tc →
  ∀ t, default 0%nat (tc !! t)
       = (default 0 (tc0 !! t) + tier_count h t reports)%nat
       ∧ (tc !! t = None ↔ tc0 !! t = None ∧ tier_count h t reports = 0%nat).
Proof.
  revert tc0. induction reports as [|l reports IH]; intros tc0; simpl.
  - intros [= <-] t. unfold tier_count; simpl. split; [lia|naive_solver].
  - destruct (count_tier h tc0 l) as [tc1|] eqn:Hl; [|done]. rewrite bind_Ok.
    intros Hrun t. apply count_tier_Ok_inv in Hl as (t1 & Ht1 & ->).
    destruct (IH _ Hrun t) as [Hn Hnone]. rewrite Hn, Hnone.
    unfold tier_count. rewrite filter_cons.
    destruct (decide (t1 = t)) as [->|Hne].
    + rewrite decide_True by done. rewrite lookup_insert_eq; simpl.
      split; [lia|]. split; [by intros [? _] | by intros [_ ?]].
    + rewrite decide_False by congruence. by rewrite lookup_insert_ne.
Qed.

(** X7. The tier distribution of a summary counts exactly: the count
    stored under a tier is the number of reports of the batch with that
    tier, and a tier that no report has is not a key of the
    distribution. *)
Theorem summary_tier_counts_exact
    (h : gmap loc (gmap string value)) (reports : list loc)
    (s : summary) (t : value) :
  generate_summary h reports = Ok s →
  default 0%nat (tier_distribution s !! t) = tier_count h t reports
  ∧ (tier_distribution s !! t = None ↔ tier_count h t reports = 0%nat).
Proof.
  intros Hrun.
  apply generate_summary_Ok_inv in Hrun as [(-> & -> & _)|(_ & Hfold & _)].
  - by rewrite lookup_empty.
  - destruct (count_tiers_exact _ _ _ _ Hfold t) as [Hn Hnone].
    rewrite Hn, Hnone, lookup_empty. split; [done|naive_solver].
Qed.

Lemma top_entry_Ok_inv h l e :
  top_entry h l = Ok e →
  e !! "rank" = field h l "rank"
  ∧ e !! "name" = field h l "player_name"
  ∧ e !! "position" = field h l "position"
  ∧ e !! "score" = field h l "score"
  ∧ e !! "tier" = field h l "tier"
  ∧ (∀ k, k ∉ ["rank"; "name"; "position"; "score"; "tier"] → e !! k = None).
Proof.
  unfold top_entry, deref, getitem, field.
  destruct (h !! l) as [d|]; simpl; [|done].
  destruct (d !! "rank") as [r|]; simpl; [|done].
  destruct (d !! "player_name") as [n|]; simpl; [|done].
  destruct (d !! "position") as [p|]; simpl; [|done].
  destruct (d !! "score") as [sc|]; simpl; [|done].
  destruct (d !! "tier") as [t|]; simpl; [|done].
  intros [= <-]. split_and!; try by simplify_map_eq.
  intros k Hk. rewrite !not_elem_of_cons in Hk.
  destruct Hk as (? & ? & ? & ? & ? & _). by simplify_map_eq.
Qed.

(** X8. [top_3_players] has one entry for each of the first three
    reports of the batch (fewer when the batch is shorter), in their
    order; the entry carries the report's [rank], [position], [score] and
    [tier] and its [player_name] under the key [name], and no other
    key. *)
Theorem summary_top_3
    (h : gmap loc (gmap string value)) (reports : list loc) (s : summary) :
  generate_summary h reports = Ok s →
  length (top_3_players s) = min 3 (length reports)
  ∧ ∀ i l, (i < 3)%nat → reports !! i = Some l →
      ∃ e, top_3_players s !! i = Some e
           ∧ e !! "rank" = field h l "rank"
           ∧ e !! "name" = field h l "player_name"
           ∧ e !! "position" = field h l "position"
           ∧ e !! "score" = field h l "score"
           ∧ e !! "tier" = field h l "tier"
           ∧ (∀ k, k ∉ ["rank"; "name"; "position"; "score"; "tier"] →
                   e !! k = None).
Proof.
  intros Hrun.
  apply generate_summary_Ok_inv in Hrun as [(-> & _ & ->)|(_ & _ & Htop)].
  - split; [done|]. by intros i l _ ?.
  - apply map_result_Ok in Htop. split.
    + rewrite <- (Forall2_length _ _ _ Htop), length_take. lia.
    + intros i l Hi Hl.
      assert (take 3 reports !! i = Some l) as Hl' by by rewrite lookup_take_lt.
      destruct (Forall2_lookup_l _ _ _ _ _ Htop Hl') as (e & He & Hentry).
      exists e. split; [done|]. by apply top_entry_Ok_inv.
Qed.

Lemma ranked_fixture : Forall (ranked_report ranked.1) ranked.2.
Proof.
  unfold ranked; cbn [fst snd].
  repeat apply Forall_cons_2; [..|apply Forall_nil_2]; unfold ranked_report.
  - exists (<["rank" := VInt 1]> (report_of "p2" 90)), 90, (VStr "S").
    split_and!; [by simplify_map_eq|by vm_compute|lia|lia|by vm_compute|done
                |eexists; by vm_compute..].
  - exists (<["rank" := VInt 2]> (report_of "p3" 90)), 90, (VStr "S").
    split_and!; [by simplify_map_eq|by vm_compute|lia|lia|by vm_compute|done
                |eexists; by vm_compute..].
  - exists (<["rank" := VInt 3]> (report_of "p4" 70)), 70, (VStr "B").
    split_and!; [by simplify_map_eq|by vm_compute|lia|lia|by vm_compute|done
                |eexists; by vm_compute..].
  - exists (<["rank" := VInt 4]> (report_of "p1" 50)), 50, (VStr "D").
    split_and!; [by simplify_map_eq|by vm_compute|lia|lia|by vm_compute|done
                |eexists; by vm_compute..].
Qed.

Lemma generate_summary_ranked_Ok h reports :
  Forall (ranked_report h) reports → ∃ s, generate_summary h reports = Ok s.
Proof.
  intros HF. destruct reports as [|l reports]; [by eexists|].
  destruct (count_tiers_total h (l :: reports) ∅ HF) as (tc & Htc & _).
  destruct (top_entries_total h (take 3 (l :: reports)) (Forall_take _ 3%nat _ HF))
    as (es & Hes).
  destruct (scores_total h (l :: reports) HF) as (scores & Hscores & Hrange).
  pose proof (map_result_length _ _ _ Hscores) as Hlen.
  pose proof (sum_in_range _ Hrange) as Hs. rewrite Hlen in Hs.
  destruct (truediv_bounded (py_sum scores) (Z.of_nat (length (l :: reports))))
    as (avg & Havg & _); [rewrite ?py_sum_foldr; simpl in *; lia..|].
  unfold generate_summary.
  rewrite Htc, bind_Ok, Hes, bind_Ok, Hscores, bind_Ok, Havg, bind_Ok.
  by eexists.
Qed.

Lemma summary_tier_counts_exact_witness :
  ∃ s, generate_summary ranked.1 ranked.2 = Ok s
       ∧ default 0%nat (tier_distribution s !! VStr "S")
         = tier_count ranked.1 (VStr "S") ranked.2
       ∧ (tier_distribution s !! VStr "S" = None
          ↔ tier_count ranked.1 (VStr "S") ranked.2 = 0%nat).
Proof.
  destruct (generate_summary_ranked_Ok ranked.1 ranked.2 ranked_fixture)
    as [s Hs].
  exists s. split; [exact Hs|].
  exact (summary_tier_counts_exact ranked.1 ranked.2 s (VStr "S") Hs).
Defined.

Lemma summary_top_3_witness :
  ∃ s, generate_summary ranked.1 ranked.2 = Ok s
       ∧ length (top_3_players s) = min 3 (length ranked.2).
Proof.
  destruct (generate_summary_ranked_Ok ranked.1 ranked.2 ranked_fixture)
    as [s Hs].
  exists s. split; [exact Hs|].
  exact (proj1 (summary_top_3 ranked.1 ranked.2 s Hs)).
Defined.

(** ** More on the rank aggregator *)

Lemma sorted_desc_id {A} (key : A → Z) l :
  StronglySorted (desc key) l → sorted_desc key l = l.
Proof. intros Hs. symmetry. by apply sorted_desc_unique. Qed.

Lemma rank_store_lookup out start h l :
  foldl set_rank h (enumerate start out) !! l = h !! l
  ∨ ∃ r, foldl set_rank h (enumerate start out) !! l
         = <["rank" := VInt r]> <$> h !! l.
Proof.
  destruct (decide (l ∈ out)) as [Hin|Hnin].
  - right. destruct (foldl_set_rank_elem out start h l Hin) as (r & _ & Hr). eauto.
  - left. by apply foldl_set_rank_other.
Qed.

Lemma rank_store_field_frame out start h l k :
  k ≠ "rank" →
  field (foldl set_rank h (enumerate start out)) l k = field h l k.
Proof.
  intros Hk. unfold field.
  destruct (rank_store_lookup out start h l) as [->|[r ->]]; [done|].
  destruct (h !! l) as [d|]; simpl; [|done]. by rewrite lookup_insert_ne.
Qed.

Lemma rank_store_fixed out h :
  NoDup out →
  let h' := foldl set_rank h (enumerate 1 out) in
  foldl set_rank h' (enumerate 1 out) = h'.
Proof.
  intros Hnd h'. apply map_eq. intros l.
  destruct (decide (l ∈ out)) as [Hin|Hnin].
  - apply list_elem_of_lookup in Hin as [i Hi].
    rewrite (foldl_set_rank_index out 1 h' i l) by done.
    unfold h'. rewrite (foldl_set_rank_index out 1 h i l) by done.
    destruct (h !! l) as [d|]; simpl; [|done]. by rewrite insert_insert_eq.
  - by rewrite foldl_set_rank_other.
Qed.

(** X9. Ranking is idempotent: [rank_players] applied to the list and
    store it has returned gives back that same list and leaves every
    report as it is (the reports being distinct objects). *)
Theorem rank_players_idempotent
    (h : gmap loc (gmap string value)) (reports : list loc)
    (h' : gmap loc (gmap string value)) (out : list loc) :
  NoDup reports →
  rank_players h reports = Ok (h', out) →
  rank_players h' out = Ok (h', out).
Proof.
  intros Hnd Hrun.
  destruct (rank_players_store _ _ _ _ Hrun)
    as (Hperm & Hh' & keys & decorated & HF & Hsort & Hout).
  assert (Forall (λ p, sort_key h' p.2 = Ok p.1) decorated) as Hk.
  { rewrite (sorted_reverse_perm _ _ Hsort).
    clear -HF Hh'. subst h'.
    induction HF as [|l k reports keys Hl _ IH]; simpl; constructor; [|done].
    simpl. rewrite <- Hl. apply sort_key_rank_frame, rank_store_lookup. }
  assert (map_result (sort_key h') out = Ok decorated.*1) as Hkeys.
  { rewrite Hout. apply map_result_Ok. clear -Hk.
    induction Hk as [|p ps Hp _ IH]; simpl; by constructor. }
  unfold rank_players.
  rewrite Hkeys, bind_Ok, Hout, zip_fst_snd.
  rewrite (sorted_reverse_fixed decorated)
    by (by eapply sorted_reverse_sorted).
  rewrite bind_Ok. cbv zeta. do 2 f_equal.
  rewrite <- Hout, Hh'. apply rank_store_fixed. by rewrite Hperm.
Qed.

Lemma rank_players_idempotent_witness :
  ∃ h' out, rank_players batch_heap batch = Ok (h', out)
            ∧ rank_players h' out = Ok (h', out).
Proof.
  assert (rank_players batch_heap batch
          = Ok (foldl set_rank batch_heap (enumerate 1 [2; 3; 4; 1]%positive),
                [2; 3; 4; 1]%positive)) as Hrun.
  { apply (rank_players_Ok batch_heap batch [50; 90; 90; 70]).
    repeat constructor. }
  eexists _, _. split; [exact Hrun|].
  apply (rank_players_idempotent batch_heap batch); [|exact Hrun].
  by apply (bool_decide_unpack (NoDup _)).
Defined.

Lemma sort_key_missing h l :
  lacks_score h l → sort_key h l = Raise (KeyError "score").
Proof.
  intros (d & Hd & Hs). unfold sort_key, deref, getitem.
  by rewrite Hd; simpl; rewrite Hs.
Qed.

Lemma sort_key_in_store h l :
  is_Some (h !! l) →
  sort_key h l = Raise (KeyError "score") ∨ ∃ k, sort_key h l = Ok k.
Proof.
  intros [d Hd]. unfold sort_key, deref, getitem. rewrite Hd; simpl.
  destruct (d !! "score"); eauto.
Qed.

(** X10. When some report of the batch has no [score] key,
    [rank_players] raises [KeyError('score')], whatever the other
    reports hold under [score] (the reports being objects of the
    store): no list is returned and no rank is written. *)
Theorem rank_players_missing_score
    (h : gmap loc (gmap string value)) (reports : list loc) (l : loc) :
  l ∈ reports →
  lacks_score h l →
  Forall (λ r, is_Some (h !! r)) reports →
  rank_players h reports = Raise (KeyError "score").
Proof.
  intros Hin Hl HF. unfold rank_players.
  assert (map_result (sort_key h) reports = Raise (KeyError "score")) as ->;
    [|done].
  induction HF as [|r reports Hr HF IH]; [by apply elem_of_nil in Hin|].
  simpl. destruct (sort_key_in_store h r Hr) as [->|[k Hk]]; [done|].
  rewrite Hk, bind_Ok.
  apply elem_of_cons in Hin as [->|Hin].
  - by rewrite (sort_key_missing h r Hl) in Hk.
  - by rewrite IH.
Qed.

Lemma rank_players_missing_score_witness :
  rank_players odd_heap [6; 5; 2]%positive = Raise (KeyError "score").
Proof.
  apply (rank_players_missing_score odd_heap [6; 5; 2]%positive 5%positive).
  - set_solver.
  - exists (delete "score" (report_of "p5" 60)).
    split; [by unfold odd_heap, broken_heap; simplify_map_eq
           |by simplify_map_eq].
  - unfold odd_heap, broken_heap, batch_heap.
    repeat apply Forall_cons_2; [..|apply Forall_nil_2];
      eexists; by simplify_map_eq.
Defined.

(** scores that are not ints: one report alone is ranked whatever its
    score, strings are ranked among themselves, a string against an int
    is a [TypeError] *)
Example rank_players_odd_scores :
  (∃ h', rank_players odd_heap [6]%positive = Ok (h', [6]%positive))
  ∧ rank_players odd_heap [6; 1]%positive = Raise TypeError
  ∧ rank_players odd_heap [1; 6]%positive = Raise TypeError.
Proof.
  split; [|split].
  - eexists. unfold rank_players.
    assert (sort_key odd_heap 6%positive = Ok (VStr "high")) as Hk
      by by vm_compute.
    simpl. rewrite Hk. reflexivity.
  - by vm_compute.
  - by vm_compute.
Qed.

Lemma StronglySorted_lookup_lt {A} (R : A → A → Prop) l i j a b :
  StronglySorted R l → (i < j)%nat →
  l !! i = Some a → l !! j = Some b → R a b.
Proof.
  intros Hs. revert i j.
  induction Hs as [|x l Hs IH Hx]; intros i j Hij Hi Hj; [done|].
  destruct j as [|j]; [lia|]. simpl in Hj.
  destruct i as [|i]; simpl in Hi.
  - injection Hi as ->. rewrite Forall_forall in Hx.
    apply Hx. by eapply list_elem_of_lookup_2.
  - apply (IH i j); [lia|done..].
Qed.

Section RankedFreshBatch.
Context {prompt : Type}.
Variable generate_player_prompt : string → string → loc → prompt.

Local Abbreviation fresh_report := (fresh_report generate_player_prompt).

Lemma fresh_score_tier h l :
  fresh_report h l →
  ∃ s, score_key h l = Ok s
       ∧ field h l "tier" = Some (VStr (_score_to_tier s)).
Proof.
  intros (p & n & pos & m & Hl). eexists. unfold score_key, deref, getitem, field.
  rewrite Hl; simpl. rewrite report_score, report_tier. done.
Qed.

Lemma fresh_scores h reports :
  Forall (fresh_report h) reports →
  ∃ scores, Forall2 (λ l s, score_key h l = Ok s) reports scores.
Proof.
  induction 1 as [|l reports Hl HF [scores IH]]; [by exists []|].
  destruct (fresh_score_tier h l Hl) as (s & Hs & _).
  exists (s :: scores). by constructor.
Qed.

(** X11. A batch of reports as [generate_player_report] returns them is
    always ranked without error, and down the ranked list the tiers never
    improve: a report is never placed below one of a worse tier. *)
Theorem ranked_tiers_never_improve
    (h : gmap loc (gmap string value)) (reports : list loc) :
  Forall (fresh_report h) reports →
  ∃ h' out,
    rank_players h reports = Ok (h', out)
    ∧ ∀ i j li lj, (i ≤ j)%nat → out !! i = Some li → out !! j = Some lj →
        ∃ ti tj, tier_of h' li = Some ti ∧ tier_of h' lj = Some tj
                 ∧ (tier_grade tj ≤ tier_grade ti)%nat.
Proof.
  intros HF. destruct (fresh_scores h reports HF) as [scores Hscores].
  destruct (rank_players_Ok _ _ _ Hscores) as (Hrun & Hperm & Hsorted & _).
  eexists _, _. split; [exact Hrun|].
  set (out := (sorted_desc fst (zip scores reports)).*2) in *.
  intros i j li lj Hij Hi Hj.
  assert (∀ l, l ∈ out → ∃ s, score_key h l = Ok s
            ∧ tier_of (foldl set_rank h (enumerate 1 out)) l
              = Some (_score_to_tier s)) as Htier.
  { intros l Hl. rewrite Hperm in Hl. rewrite Forall_forall in HF.
    destruct (fresh_score_tier h l (HF l Hl)) as (s & Hs & Ht).
    exists s. split; [done|]. unfold tier_of.
    by rewrite rank_store_field_frame, Ht. }
  destruct (Htier li) as (si & Hsi & Hti); [by eapply list_elem_of_lookup_2|].
  destruct (Htier lj) as (sj & Hsj & Htj); [by eapply list_elem_of_lookup_2|].
  exists (_score_to_tier si), (_score_to_tier sj). split_and!; [done..|].
  apply tier_grade_mono.
  destruct (decide (i = j)) as [->|Hne].
  - assert (li = lj) as -> by congruence. assert (si = sj) by congruence. lia.
  - destruct (StronglySorted_lookup_lt _ _ i j li lj Hsorted ltac:(lia) Hi Hj)
      as (sa & sb & Ha & Hb & Hle).
    assert (sa = si) by congruence. assert (sb = sj) by congruence. lia.
Qed.

End RankedFreshBatch.

Lemma ranked_tiers_never_improve_witness :
  ∃ h' out,
    rank_players batch_heap batch = Ok (h', out)
    ∧ ∀ i j li lj, (i ≤ j)%nat → out !! i = Some li → out !! j = Some lj →
        ∃ ti tj, tier_of h' li = Some ti ∧ tier_of h' lj = Some tj
                 ∧ (tier_grade tj ≤ tier_grade ti)%nat.
Proof.
  exact (ranked_tiers_never_improve (λ n _ _, n) batch_heap batch batch_fresh).
Defined.

(** ** The movement metrics *)

Section MovementFacts.
Import Movement.
Variable np : NumLib.

Lemma find_column_spec df names :
  (∃ pre post, names = pre ++ _find_column df names :: post
               ∧ _find_column df names ∈ columns df
               ∧ Forall (λ n, n ∉ columns df) pre)
  ∨ (_find_column df names = "" ∧ Forall (λ n, n ∉ columns df) names).
Proof.
  induction names as [|name names IH]; simpl.
  - right. by split.
  - case_bool_decide as Hin.
    + left. exists [], names. by split_and!.
    + destruct IH as [(pre & post & Heq & Hfound & Hpre)|[Hnone Hall]].
      * left. exists (name :: pre), post. split_and!; [|done|by constructor].
        simpl. by rewrite <- Heq.
      * right. split; [done|by constructor].
Qed.

(** X12. [_find_column] resolves a logical field to the first alias, in
    the order of the list, that is a column of the table; it answers the
    empty string exactly when it has tried every alias in vain. *)
Theorem find_column_first_alias (df : DataFrame) (names : list string) :
  ((∃ pre post, names = pre ++ _find_column df names :: post
                ∧ _find_column df names ∈ columns df
                ∧ Forall (λ n, n ∉ columns df) pre)
   ∨ (_find_column df names = "" ∧ Forall (λ n, n ∉ columns df) names))
  ∧ (truthy (_find_column df names) = true →
     _find_column df names ∈ names ∧ _find_column df names ∈ columns df)
  ∧ (Forall (λ n, n ∉ columns df) names → _find_column df names = "").
Proof.
  split; [apply find_column_spec|]. split.
  - intros Htruthy.
    destruct (find_column_spec df names)
      as [(pre & post & Heq & Hfound & _)|[Hnone _]].
    + split; [|done]. rewrite Heq at 2. set_solver.
    + by rewrite Hnone in Htruthy.
  - induction 1 as [|name names Hname _ IH]; simpl; [done|].
    by rewrite bool_decide_false.
Qed.

Lemma find_column_in df names :
  truthy (_find_column df names) = true → _find_column df names ∈ columns df.
Proof.
  intros Htruthy.
  destruct (find_column_spec df names) as [(_ & _ & _ & Hin & _)|[Hnone _]];
    [done|]. by rewrite Hnone in Htruthy.
Qed.

Lemma column_index_Ok df col :
  col ∈ columns df → ∃ i, column_index df col = Ok i.
Proof.
  intros Hin. unfold column_index.
  destruct (list_find_elem_of (λ c, c = col) (columns df) col Hin eq_refl)
    as [[i c] ->].
  by eexists.
Qed.

Lemma values_Ok df col :
  col ∈ columns df →
  ∃ i, column_index df col = Ok i ∧ values df col = Ok (cell i <$> rows df).
Proof.
  intros Hin. destruct (column_index_Ok df col Hin) as [i Hi].
  exists i. split; [done|]. unfold values. by rewrite Hi.
Qed.

Lemma take_rows_seq (l : list (list float)) :
  take_rows l (seq 0 (length l)) = l.
Proof.
  unfold take_rows. induction l as [|r l IH]; simpl; [done|].
  f_equal. rewrite <- fmap_S_seq, <- list_fmap_compose. exact IH.
Qed.

Lemma take_rows_perm (l : list (list float)) indexer :
  indexer ≡ₚ seq 0 (length l) → take_rows l indexer ≡ₚ l.
Proof.
  intros Hperm. rewrite <- (take_rows_seq l) at 2.
  unfold take_rows. by rewrite Hperm.
Qed.

Lemma nan_split_perm (f : list float → float) (l : list (list float)) :
  filter (λ r, is_nan (f r) = false) l ++ filter (λ r, is_nan (f r) = true) l
  ≡ₚ l.
Proof.
  induction l as [|r l IH]; [done|]. rewrite !filter_cons.
  destruct (is_nan (f r)) eqn:Hr.
  - rewrite decide_False, decide_True by done.
    rewrite <- Permutation_middle. by rewrite IH.
  - rewrite decide_True, decide_False by done. simpl. by rewrite IH.
Qed.

(** sorting keeps the columns and permutes the rows *)
Lemma sort_values_Ok df col :
  col ∈ columns df →
  ∃ df', sort_values np df col = Ok df'
         ∧ columns df' = columns df ∧ rows df' ≡ₚ rows df.
Proof.
  intros Hin. destruct (column_index_Ok df col Hin) as [i Hi].
  unfold sort_values. rewrite Hi, bind_Ok.
  eexists. split; [done|]. split; [done|]. simpl.
  rewrite take_rows_perm; [by rewrite nan_split_perm|].
  by rewrite argsort_perm, length_fmap.
Qed.

Lemma sorted_if_Ok df col :
  (truthy col = true → col ∈ columns df) →
  ∃ df', sorted_if np df col = Ok df'
         ∧ columns df' = columns df ∧ rows df' ≡ₚ rows df.
Proof.
  intros Hin. unfold sorted_if. destruct (truthy col).
  - by apply sort_values_Ok, Hin.
  - by exists df.
Qed.

End MovementFacts.

Lemma find_column_first_alias_witness :
  Movement._find_column shuffled_df Movement.time_names ∈ Movement.time_names
  ∧ Movement._find_column shuffled_df Movement.time_names
    ∈ Movement.columns shuffled_df.
Proof.
  apply (find_column_first_alias shuffled_df Movement.time_names).
  by vm_compute.
Defined.

(** ** The kinematic metrics *)

Section KinematicFacts.
Import Movement.
Variable np : NumLib.

Lemma find_column_none df names : lacks df names → _find_column df names = "".
Proof.
  induction 1 as [|n names Hn _ IH]; simpl; [done|].
  by rewrite bool_decide_eq_false_2.
Qed.

Lemma item_lookup a i v : a !! i = Some v → item a i = Ok v.
Proof. unfold item. by intros ->. Qed.

Lemma item_Ok a i : (i < length a)%nat → ∃ v, item a i = Ok v.
Proof.
  intros Hi. destruct (lookup_lt_is_Some_2 a i Hi) as [v Hv].
  exists v. by apply item_lookup.
Qed.

Lemma item_cons x a i : item (x :: a) (S i) = item a i.
Proof. reflexivity. Qed.

Lemma map_result_seq_shift {B} (f g : nat → result B) j n :
  (∀ i, (j ≤ i)%nat → f (S i) = g i) →
  map_result f (seq (S j) n) = map_result g (seq j n).
Proof.
  revert j. induction n as [|n IH]; intros j Hfg; simpl; [done|].
  rewrite Hfg by lia. rewrite (IH (S j)); [done|].
  intros i Hi. apply Hfg. lia.
Qed.

Lemma fold_result_seq_shift {B} (f g : B → nat → result B) s j n :
  (∀ s' i, (j ≤ i)%nat → f s' (S i) = g s' i) →
  fold_result f s (seq (S j) n) = fold_result g s (seq j n).
Proof.
  revert s j. induction n as [|n IH]; intros s j Hfg; simpl; [done|].
  rewrite Hfg by lia. destruct (g s j) as [s'|e]; simpl; [|done].
  apply IH. intros s'' i Hi. apply Hfg. lia.
Qed.

Lemma segment_shift x y xs ys i :
  segment np (x :: xs) (y :: ys) (S (S i)) = segment np xs ys (S i).
Proof.
  unfold segment.
  replace (S (S i) - 1)%nat with (S i) by lia.
  replace (S i - 1)%nat with i by lia.
  by rewrite !item_cons.
Qed.

(** the loop of [calculate_total_distance] walks the path pair by pair *)
Lemma segments_path xs ys :
  length xs = length ys →
  map_result (segment np xs ys) (seq 1 (length xs - 1))
  = Ok (consecutive_distances np xs ys).
Proof.
  revert ys. induction xs as [|x1 xs IH]; intros [|y1 ys] Hlen;
    simplify_eq/=; try done.
  rewrite Nat.sub_0_r.
  destruct xs as [|x2 xs], ys as [|y2 ys]; simplify_eq/=; [done|].
  rewrite (map_result_seq_shift _ (segment np (x2 :: xs) (y2 :: ys)) 1)
    by (intros [|i] Hi; [lia|apply segment_shift]).
  specialize (IH (y2 :: ys)). simpl in IH. rewrite Nat.sub_0_r in IH.
  rewrite IH by (simpl; by f_equal). reflexivity.
Qed.

Lemma lateral_step_shift x xs i :
  lateral_step (x :: xs) (S (S i)) = lateral_step xs (S i).
Proof.
  unfold lateral_step.
  replace (S (S i) - 1)%nat with (S i) by lia.
  replace (S i - 1)%nat with i by lia.
  by rewrite !item_cons.
Qed.

(** the sum of [_calculate_lateral_movement] walks the x values pair by
    pair *)
Lemma lateral_path xs :
  map_result (lateral_step xs) (seq 1 (length xs - 1))
  = Ok (consecutive_x_deltas xs).
Proof.
  induction xs as [|x1 xs IH]; simpl; [done|].
  rewrite Nat.sub_0_r.
  destruct xs as [|x2 xs]; simpl; [done|].
  rewrite (map_result_seq_shift _ (lateral_step (x2 :: xs)) 1)
    by (intros [|i] Hi; [lia|apply lateral_step_shift]).
  simpl in IH. rewrite Nat.sub_0_r in IH. by rewrite IH.
Qed.

Lemma turn_step_Ok threshold xs ys c i :
  (2 ≤ i < length xs)%nat → length xs = length ys →
  ∃ c', turn_step np threshold xs ys c i = Ok c' ∧ c ≤ c' ≤ c + 1.
Proof.
  intros Hi Hlen. unfold turn_step.
  destruct (item_Ok xs (i - 1)) as [x1 ->]; [lia|].
  destruct (item_Ok xs (i - 2)) as [x0 ->]; [lia|].
  destruct (item_Ok ys (i - 1)) as [y1 ->]; [lia|].
  destruct (item_Ok ys (i - 2)) as [y0 ->]; [lia|].
  destruct (item_Ok xs i) as [x2 ->]; [lia|].
  destruct (item_Ok ys i) as [y2 ->]; [lia|].
  rewrite !bind_Ok. cbv zeta beta iota.
  destruct (_ && _); [destruct (_ <=? _)%float|]; eexists; split; try done; lia.
Qed.

Lemma turn_steps_Ok threshold xs ys c l :
  Forall (λ i, (2 ≤ i < length xs)%nat) l → length xs = length ys →
  ∃ c', fold_result (turn_step np threshold xs ys) c l = Ok c'
        ∧ c ≤ c' ≤ c + Z.of_nat (length l).
Proof.
  intros Hl Hlen. revert c.
  induction Hl as [|i l Hi _ IH]; intros c; simpl.
  - exists c. split; [done|lia].
  - destruct (turn_step_Ok threshold xs ys c i Hi Hlen) as (c1 & -> & Hc1).
    rewrite bind_Ok. destruct (IH c1) as (c' & -> & Hc').
    exists c'. split; [done|lia].
Qed.

Lemma segment_Ok xs ys i :
  (1 ≤ i < length xs)%nat → length xs = length ys →
  ∃ x1 y1 x2 y2, xs !! (i - 1)%nat = Some x1 ∧ ys !! (i - 1)%nat = Some y1
    ∧ xs !! i = Some x2 ∧ ys !! i = Some y2
    ∧ segment np xs ys i = Ok (calculate_distance np x1 y1 x2 y2).
Proof.
  intros Hi Hlen. unfold segment.
  destruct (lookup_lt_is_Some_2 xs (i - 1)) as [x1 Hx1]; [lia|].
  destruct (lookup_lt_is_Some_2 ys (i - 1)) as [y1 Hy1]; [lia|].
  destruct (lookup_lt_is_Some_2 xs i) as [x2 Hx2]; [lia|].
  destruct (lookup_lt_is_Some_2 ys i) as [y2 Hy2]; [lia|].
  exists x1, y1, x2, y2.
  by rewrite (item_lookup _ _ _ Hx1), (item_lookup _ _ _ Hy1),
    (item_lookup _ _ _ Hx2), (item_lookup _ _ _ Hy2).
Qed.

Lemma speed_step_Ok xs ys ts speeds i :
  (1 ≤ i < length xs)%nat → length xs = length ys → length xs = length ts →
  ∃ speeds', speed_step np xs ys ts speeds i = Ok speeds'.
Proof.
  intros Hi Hys Hts. unfold speed_step.
  destruct (segment_Ok xs ys i Hi Hys) as (x1 & y1 & x2 & y2 & _ & _ & _ & _ & ->).
  destruct (item_Ok ts i) as [t ->]; [lia|].
  destruct (item_Ok ts (i - 1)) as [t' ->]; [lia|].
  rewrite !bind_Ok. cbv zeta. destruct (_ <? _)%float; by eexists.
Qed.

Lemma speed_steps_Ok xs ys ts speeds l :
  Forall (λ i, (1 ≤ i < length xs)%nat) l →
  length xs = length ys → length xs = length ts →
  ∃ speeds', fold_result (speed_step np xs ys ts) speeds l = Ok speeds'.
Proof.
  intros Hl Hys Hts. revert speeds.
  induction Hl as [|i l Hi _ IH]; intros speeds; simpl; [by eexists|].
  destruct (speed_step_Ok xs ys ts speeds i Hi Hys Hts) as [s1 ->].
  rewrite bind_Ok. apply IH.
Qed.

Lemma speed_step_shift x y t xs ys ts speeds i :
  speed_step np (x :: xs) (y :: ys) (t :: ts) speeds (S (S i))
  = speed_step np xs ys ts speeds (S i).
Proof.
  unfold speed_step. rewrite segment_shift.
  replace (S (S i) - 1)%nat with (S i) by lia.
  replace (S i - 1)%nat with i by lia.
  by rewrite !item_cons.
Qed.

Lemma speed_step_first x1 x2 xs y1 y2 ys t1 t2 ts speeds :
  speed_step np (x1 :: x2 :: xs) (y1 :: y2 :: ys) (t1 :: t2 :: ts) speeds 1
  = Ok (if (0 <? t2 - t1)%float
        then speeds ++ [(calculate_distance np x1 y1 x2 y2 / (t2 - t1))%float]
        else speeds).
Proof. unfold speed_step, segment. simpl. by destruct (_ <? _)%float. Qed.

(** the loop of [calculate_max_speed] collects the speeds of the steps
    that take a positive time *)
Lemma speeds_path xs ys ts speeds :
  length xs = length ys → length xs = length ts →
  fold_result (speed_step np xs ys ts) speeds (seq 1 (length xs - 1))
  = Ok (speeds ++ segment_speeds np xs ys ts).
Proof.
  revert ys ts speeds.
  induction xs as [|x1 xs IH]; intros [|y1 ys] [|t1 ts] speeds Hys Hts;
    simplify_eq/=; try by rewrite app_nil_r.
  rewrite Nat.sub_0_r.
  destruct xs as [|x2 xs], ys as [|y2 ys], ts as [|t2 ts]; simplify_eq/=;
    [by rewrite app_nil_r|].
  specialize (IH (y2 :: ys) (t2 :: ts)). simpl in IH.
  rewrite Nat.sub_0_r in IH.
  rewrite speed_step_first, bind_Ok.
  rewrite (fold_result_seq_shift _
             (speed_step np (x2 :: xs) (y2 :: ys) (t2 :: ts)) _ 1)
    by (intros ? [|i] Hi; [lia|apply speed_step_shift]).
  rewrite IH by (simpl; by f_equal).
  destruct (0 <? t2 - t1)%float; [|done]. by rewrite <- app_assoc.
Qed.

Lemma SFltb_trans a b c :
  SFltb a b = true → SFltb b c = true → SFltb a c = true.
Proof.
  unfold SFltb, SFcompare.
  destruct a as [[]|[]| |[] m1 e1], b as [[]|[]| |[] m2 e2],
    c as [[]|[]| |[] m3 e3]; simpl; try discriminate; try reflexivity.
  all: change (PosDef.Pos.compare_cont Eq) with Pos.compare.
  all: destruct (Z.compare_spec e1 e2), (Z.compare_spec e2 e3),
    (Z.compare_spec e1 e3); simpl; try discriminate; try reflexivity; try lia.
  all: subst.
  all: destruct (Pos.compare_spec m1 m2), (Pos.compare_spec m2 m3),
    (Pos.compare_spec m1 m3); simpl; try discriminate; try reflexivity; try lia.
Qed.

Lemma SFltb_irrefl a : SFltb a a = false.
Proof.
  unfold SFltb, SFcompare.
  destruct a as [[]|[]| |[] m e]; simpl; try reflexivity.
  all: rewrite Z.compare_refl;
    change (PosDef.Pos.compare_cont Eq) with Pos.compare;
    rewrite Pos.compare_refl; reflexivity.
Qed.

Lemma ltb_trans (a b c : float) :
  (a <? b)%float = true → (b <? c)%float = true → (a <? c)%float = true.
Proof. rewrite !ltb_spec. apply SFltb_trans. Qed.

Lemma ltb_irrefl (a : float) : (a <? a)%float = false.
Proof. rewrite ltb_spec. apply SFltb_irrefl. Qed.

(** [max] returns an element that no element of the list exceeds *)
Lemma fmax_spec first others :
  fmax first others ∈ first :: others
  ∧ (fmax first others = first ∨ (first <? fmax first others)%float = true)
  ∧ ∀ v, v ∈ first :: others → (fmax first others <? v)%float = false.
Proof.
  unfold fmax. revert first.
  induction others as [|v' others IH]; intros first; simpl.
  - split; [set_solver|]. split; [by left|].
    intros v ->%list_elem_of_singleton. apply ltb_irrefl.
  - destruct (first <? v')%float eqn:Hlt.
    + destruct (IH v') as (Hin & Hup & Hmax).
      assert ((first <? foldl (λ m v, if (m <? v)%float then v else m)
                          v' others)%float = true) as Hfirst.
      { destruct Hup as [->|Hup]; [done|]. by apply ltb_trans with v'. }
      split; [set_solver|]. split; [by right|].
      intros v [->|Hv]%elem_of_cons; [|by apply Hmax].
      match goal with |- ?b = false => destruct b eqn:Hback; [|done] end.
      rewrite <- (Hmax v') by set_solver. symmetry.
      by apply ltb_trans with first.
    + destruct (IH first) as (Hin & Hup & Hmax).
      split; [set_solver|]. split; [done|].
      intros v [->|[->|Hv]%elem_of_cons]%elem_of_cons.
      * apply Hmax. set_solver.
      * destruct Hup as [->|Hup]; [done|].
        match goal with |- ?b = false => destruct b eqn:Hv; [|done] end.
        rewrite <- Hlt. symmetry. by eapply ltb_trans.
      * apply Hmax. set_solver.
Qed.

Lemma seq_bounds j n m :
  (j + n ≤ m)%nat → Forall (λ i, (j ≤ i < m)%nat) (seq j n).
Proof. intros Hm. apply Forall_forall. intros i Hi%elem_of_seq. lia. Qed.

(** a column that [_find_column] reports can be read, before and after
    sorting *)
Lemma found_values df df' names :
  truthy (_find_column df names) = true → columns df' = columns df →
  ∃ i, values df' (_find_column df names) = Ok (cell i <$> rows df').
Proof.
  intros Hfound Hcols.
  destruct (values_Ok df' (_find_column df names)) as (i & _ & Hi).
  - rewrite Hcols. by apply find_column_in.
  - by exists i.
Qed.

Lemma found_sorted_if df names :
  ∃ df', sorted_if np df (_find_column df names) = Ok df'
         ∧ columns df' = columns df ∧ rows df' ≡ₚ rows df.
Proof. apply sorted_if_Ok, find_column_in. Qed.

(** the structure of a run of [calculate_total_distance] on a table
    that has both coordinates *)
Lemma total_distance_run df :
  (2 ≤ len df)%nat →
  truthy (_find_column df x_names) = true →
  truthy (_find_column df y_names) = true →
  ∃ df' xs ys,
    sorted_if np df (_find_column df time_names) = Ok df'
    ∧ rows df' ≡ₚ rows df
    ∧ values df' (_find_column df x_names) = Ok xs
    ∧ values df' (_find_column df y_names) = Ok ys
    ∧ length xs = len df ∧ length ys = len df
    ∧ calculate_total_distance np df
      = Ok (fsum (consecutive_distances np xs ys)).
Proof.
  intros Hlen Hx Hy.
  destruct (found_sorted_if df time_names) as (df' & Hsort & Hcols & Hrows).
  destruct (found_values df df' x_names Hx Hcols) as [i Hxs].
  destruct (found_values df df' y_names Hy Hcols) as [j Hys].
  assert (length (rows df') = len df) as Hrl by (unfold len; by rewrite Hrows).
  exists df', (cell i <$> rows df'), (cell j <$> rows df').
  repeat split; try done; try (by rewrite length_fmap).
  unfold calculate_total_distance.
  destruct (Nat.ltb_spec (len df) 2) as [?|_]; [lia|].
  cbv zeta. rewrite Hx, Hy. simpl negb. cbv iota.
  rewrite Hsort, bind_Ok, Hxs, bind_Ok, Hys, bind_Ok.
  rewrite segments_path by (by rewrite !length_fmap).
  reflexivity.
Qed.

Lemma total_distance_Ok df : ∃ v, calculate_total_distance np df = Ok v.
Proof.
  destruct (Nat.ltb_spec (len df) 2) as [Hlt|Hge].
  - exists 0%float. unfold calculate_total_distance.
    by destruct (Nat.ltb_spec (len df) 2); [|lia].
  - destruct (truthy (_find_column df x_names)) eqn:Hx;
      [destruct (truthy (_find_column df y_names)) eqn:Hy|].
    + destruct (total_distance_run df Hge Hx Hy)
        as (? & ? & ? & _ & _ & _ & _ & _ & _ & ->). by eexists.
    + exists 0%float. unfold calculate_total_distance.
      destruct (_ <? _)%nat; [done|]. cbv zeta. by rewrite Hx, Hy.
    + exists 0%float. unfold calculate_total_distance.
      destruct (_ <? _)%nat; [done|]. cbv zeta. by rewrite Hx.
Qed.

Lemma total_distance_lacks df :
  lacks df x_names ∨ lacks df y_names →
  calculate_total_distance np df = Ok 0%float.
Proof.
  intros Hlacks. unfold calculate_total_distance.
  destruct (_ <? _)%nat; [done|]. cbv zeta.
  destruct Hlacks as [H|H]; rewrite (find_column_none _ _ H); simpl; [done|].
  by rewrite orb_true_r.
Qed.

Lemma div_zero_pos t : (0 <? t)%float = true → (0 / t)%float = 0%float.
Proof.
  intros Ht. apply Prim2SF_inj. rewrite div_spec. rewrite ltb_spec in Ht.
  change (Prim2SF 0) with (S754_zero false) in *.
  by destruct (Prim2SF t) as [[]|[]| |[] ? ?].
Qed.

(** the structure of a run of [calculate_average_speed] on a table with
    a time column *)
Lemma average_speed_run df :
  (2 ≤ len df)%nat →
  truthy (_find_column df time_names) = true →
  ∃ d df' ts t_first t_last,
    calculate_total_distance np df = Ok d
    ∧ sort_values np df (_find_column df time_names) = Ok df'
    ∧ values df' (_find_column df time_names) = Ok ts
    ∧ head ts = Some t_first ∧ last ts = Some t_last
    ∧ calculate_average_speed np df
      = Ok (calculate_speed d (t_last - t_first)).
Proof.
  intros Hlen Ht. destruct (total_distance_Ok df) as [d Hd].
  destruct (sort_values_Ok np df (_find_column df time_names))
    as (df' & Hsort & Hcols & Hrows); [by apply find_column_in|].
  destruct (found_values df df' time_names Ht Hcols) as [i Hts].
  set (ts := cell i <$> rows df') in *.
  assert (length ts = len df) as Hts_len
    by (unfold ts, len; by rewrite length_fmap, Hrows).
  destruct (lookup_lt_is_Some_2 ts 0) as [t0 Ht0]; [lia|].
  destruct (lookup_lt_is_Some_2 ts (length ts - 1)) as [tl Htl]; [lia|].
  exists d, df', ts, t0, tl. repeat split; try done.
  - by rewrite head_lookup.
  - rewrite last_lookup. by replace (pred (length ts)) with (length ts - 1)%nat by lia.
  - unfold calculate_average_speed.
    destruct (Nat.ltb_spec (len df) 2) as [?|_]; [lia|].
    rewrite Hd, bind_Ok. cbv zeta. rewrite Ht, Hsort, bind_Ok, Hts, bind_Ok.
    rewrite (item_lookup _ _ _ Htl), bind_Ok, (item_lookup _ _ _ Ht0), bind_Ok.
    unfold calculate_speed. by destruct (_ <? _)%float.
Qed.

Lemma average_speed_short df :
  (len df < 2)%nat → calculate_average_speed np df = Ok 0%float.
Proof.
  intros Hlen. unfold calculate_average_speed.
  by destruct (Nat.ltb_spec (len df) 2); [|lia].
Qed.

Lemma average_speed_no_time df :
  truthy (_find_column df time_names) = false →
  calculate_average_speed np df = Ok 0%float.
Proof.
  intros Ht. unfold calculate_average_speed.
  destruct (_ <? _)%nat; [done|].
  destruct (total_distance_Ok df) as [d ->]. rewrite bind_Ok. cbv zeta.
  by rewrite Ht.
Qed.

Lemma average_speed_Ok df : ∃ v, calculate_average_speed np df = Ok v.
Proof.
  destruct (Nat.ltb_spec (len df) 2) as [Hlt|Hge].
  - eexists. by apply average_speed_short.
  - destruct (truthy (_find_column df time_names)) eqn:Ht.
    + destruct (average_speed_run df Hge Ht)
        as (? & ? & ? & ? & ? & _ & _ & _ & _ & _ & ->). by eexists.
    + eexists. by apply average_speed_no_time.
Qed.

Lemma max_speed_Ok df : ∃ v, calculate_max_speed np df = Ok v.
Proof.
  unfold calculate_max_speed.
  destruct (Nat.ltb_spec (len df) 2) as [Hlt|Hge]; [by eexists|]. cbv zeta.
  destruct (truthy (_find_column df x_names)) eqn:Hx; [|by eexists].
  destruct (truthy (_find_column df y_names)) eqn:Hy; [|by eexists].
  destruct (truthy (_find_column df time_names)) eqn:Ht; [|by eexists].
  simpl negb. cbv iota.
  destruct (sort_values_Ok np df (_find_column df time_names))
    as (df' & Hsort & Hcols & Hrows); [by apply find_column_in|].
  destruct (found_values df df' x_names Hx Hcols) as [i Hxs].
  destruct (found_values df df' y_names Hy Hcols) as [j Hys].
  destruct (found_values df df' time_names Ht Hcols) as [k Hts].
  rewrite Hsort, bind_Ok, Hxs, bind_Ok, Hys, bind_Ok, Hts, bind_Ok.
  destruct (speed_steps_Ok (cell i <$> rows df') (cell j <$> rows df')
              (cell k <$> rows df') []
              (seq 1 (length (cell i <$> rows df') - 1))) as [speeds ->].
  - apply seq_bounds. rewrite length_fmap, Hrows. unfold len in Hge. lia.
  - by rewrite !length_fmap.
  - by rewrite !length_fmap.
  - rewrite bind_Ok. destruct speeds; by eexists.
Qed.

Lemma max_speed_lacks df :
  lacks df x_names ∨ lacks df y_names ∨ lacks df time_names →
  calculate_max_speed np df = Ok 0%float.
Proof.
  intros Hlacks. unfold calculate_max_speed.
  destruct (_ <? _)%nat; [done|]. cbv zeta.
  destruct Hlacks as [H|[H|H]]; rewrite (find_column_none _ _ H); simpl;
    by rewrite ?orb_true_r.
Qed.

Lemma direction_changes_lacks df threshold :
  lacks df x_names ∨ lacks df y_names →
  calculate_direction_changes np df threshold = Ok 0.
Proof.
  intros Hlacks. unfold calculate_direction_changes.
  destruct (_ <? _)%nat; [done|]. cbv zeta.
  destruct Hlacks as [H|H]; rewrite (find_column_none _ _ H); simpl; [done|].
  by rewrite orb_true_r.
Qed.

(** the structure of a run of [_calculate_lateral_movement] on a table
    that has an x column *)
Lemma lateral_movement_run df :
  (2 ≤ len df)%nat → truthy (_find_column df x_names) = true →
  ∃ xs, values df (_find_column df x_names) = Ok xs
        ∧ length xs = len df
        ∧ _calculate_lateral_movement df
          = Ok (fsum (consecutive_x_deltas xs)).
Proof.
  intros Hlen Hx.
  destruct (found_values df df x_names Hx eq_refl) as [i Hxs].
  exists (cell i <$> rows df). split; [done|]. split; [by rewrite length_fmap|].
  unfold _calculate_lateral_movement.
  destruct (Nat.ltb_spec (len df) 2) as [?|_]; [lia|]. cbv zeta.
  rewrite Hx. simpl negb. cbv iota.
  by rewrite Hxs, bind_Ok, lateral_path, bind_Ok.
Qed.

Lemma lateral_movement_Ok df : ∃ v, _calculate_lateral_movement df = Ok v.
Proof.
  destruct (Nat.ltb_spec (len df) 2) as [Hlt|Hge].
  - exists 0%float. unfold _calculate_lateral_movement.
    by destruct (Nat.ltb_spec (len df) 2); [|lia].
  - destruct (truthy (_find_column df x_names)) eqn:Hx.
    + destruct (lateral_movement_run df Hge Hx) as (? & _ & _ & ->).
      by eexists.
    + exists 0%float. unfold _calculate_lateral_movement.
      destruct (_ <? _)%nat; [done|]. cbv zeta. by rewrite Hx.
Qed.

(** *** Sorting a shuffled recording *)

Lemma SFcompare_antisym a b : SFcompare b a = CompOpp <$> SFcompare a b.
Proof.
  unfold SFcompare.
  destruct a as [[]|[]| |[] m1 e1], b as [[]|[]| |[] m2 e2]; simpl;
    try reflexivity.
  all: rewrite (Z.compare_antisym e1 e2).
  all: destruct (e1 ?= e2); simpl; try reflexivity.
  all: change (PosDef.Pos.compare_cont Eq) with Pos.compare.
  all: rewrite (Pos.compare_antisym m1 m2).
  all: by destruct (m1 ?= m2)%positive.
Qed.

Lemma ltb_leb (a b : float) : (a <? b)%float = true → (a <=? b)%float = true.
Proof.
  rewrite FloatAxioms.ltb_spec, FloatAxioms.leb_spec. unfold SFltb, SFleb.
  by destruct (SFcompare _ _) as [[]|].
Qed.

Lemma ltb_not_leb (a b : float) :
  (a <? b)%float = true → (b <=? a)%float = false.
Proof.
  rewrite FloatAxioms.ltb_spec, FloatAxioms.leb_spec. unfold SFltb, SFleb.
  rewrite (SFcompare_antisym (Prim2SF a) (Prim2SF b)).
  by destruct (SFcompare _ _) as [[]|].
Qed.

Lemma SFcompare_refl a : a ≠ S754_nan → SFcompare a a = Some Eq.
Proof.
  unfold SFcompare. destruct a as [[]|[]| |[] m e]; simpl; try done.
  all: intros _; rewrite Z.compare_refl;
    change (PosDef.Pos.compare_cont Eq) with Pos.compare;
    by rewrite Pos.compare_refl.
Qed.

Lemma ltb_not_nan (a b : float) :
  (a <? b)%float = true → is_nan a = false ∧ is_nan b = false.
Proof.
  unfold is_nan. rewrite FloatAxioms.ltb_spec, !FloatAxioms.eqb_spec. unfold SFltb, SFeqb.
  intros Hlt.
  rewrite !SFcompare_refl; [done| |];
    intros Hnan; rewrite Hnan in Hlt; simpl in Hlt; try done.
  by destruct (Prim2SF a) as [[]|[]| |[] ? ?].
Qed.

Lemma SFleb_trans a b c :
  SFleb a b = true → SFleb b c = true → SFleb a c = true.
Proof.
  unfold SFleb, SFcompare.
  destruct a as [[]|[]| |[] m1 e1], b as [[]|[]| |[] m2 e2],
    c as [[]|[]| |[] m3 e3]; simpl; try discriminate; try reflexivity.
  all: change (PosDef.Pos.compare_cont Eq) with Pos.compare.
  all: destruct (Z.compare_spec e1 e2), (Z.compare_spec e2 e3),
    (Z.compare_spec e1 e3); simpl; try discriminate; try reflexivity; try lia.
  all: subst.
  all: destruct (Pos.compare_spec m1 m2), (Pos.compare_spec m2 m3),
    (Pos.compare_spec m1 m3); simpl; try discriminate; try reflexivity; try lia.
Qed.

Lemma leb_trans (a b c : float) :
  (a <=? b)%float = true → (b <=? c)%float = true → (a <=? c)%float = true.
Proof. rewrite !FloatAxioms.leb_spec. apply SFleb_trans. Qed.

(** an ascending list that rearranges a strictly increasing one is that
    list *)
Lemma ascending_unique (key : list float → float) l sorted :
  StronglySorted (λ a b, (key a <=? key b)%float = true) l →
  StronglySorted (λ a b, (key a <? key b)%float = true) sorted →
  l ≡ₚ sorted → l = sorted.
Proof.
  intros Hl Hsorted. revert l Hl.
  induction Hsorted as [|m sorted Hsorted IH Hm]; intros l Hl Hperm.
  - by apply Permutation_nil_r in Hperm.
  - destruct Hl as [|a l Hl Ha].
    { by apply Permutation_nil_cons in Hperm. }
    assert (a = m) as ->.
    { assert (a ∈ m :: sorted) as [->|Hin]%elem_of_cons
        by (rewrite <- Hperm; set_solver); [done|].
      assert (m ∈ a :: l) as [->|Hin']%elem_of_cons
        by (rewrite Hperm; set_solver); [done|].
      rewrite Forall_forall in Hm, Ha.
      specialize (Hm a Hin). specialize (Ha m Hin').
      apply ltb_not_leb in Hm. congruence. }
    f_equal. apply IH; [done|]. by apply Permutation_cons_inv in Hperm.
Qed.

Lemma leb_sorted_strongly (key : list float → float) l :
  Sorted (λ a b, (key a <=? key b)%float = true) l →
  StronglySorted (λ a b, (key a <=? key b)%float = true) l.
Proof.
  apply Sorted_StronglySorted. intros a b c. apply leb_trans.
Qed.

(** the rows that [sort_values] takes are in ascending order of their
    keys *)
Lemma take_rows_ascending i (numbers : list (list float)) indexer :
  ascending (cell i <$> numbers) indexer →
  Sorted (λ a b, (cell i a <=? cell i b)%float = true)
    (take_rows numbers indexer).
Proof.
  unfold ascending, take_rows.
  assert (∀ j, nth j (cell i <$> numbers) nan = cell i (nth j numbers []))
    as Hnth.
  { intros j. rewrite <- (map_nth (cell i)).
    replace (cell i []) with nan by (unfold cell; by destruct i). done. }
  induction 1 as [|j indexer _ IH Hj]; simpl; constructor; [done|].
  destruct Hj as [|j' indexer Hjj']; simpl; constructor.
  by rewrite <- !Hnth.
Qed.

Lemma sorted_no_nan (key : list float → float) sorted :
  StronglySorted (λ a b, (key a <? key b)%float = true) sorted →
  (2 ≤ length sorted)%nat →
  Forall (λ r, is_nan (key r) = false) sorted.
Proof.
  intros Hsorted Hlen.
  destruct Hsorted as [|a [|b l] _ Hall]; simpl in Hlen; [lia|lia|].
  constructor.
  - inversion Hall as [|? ? Hab _]; subst. by apply ltb_not_nan in Hab as [? _].
  - eapply Forall_impl; [exact Hall|]. simpl.
    intros c Hc. by apply ltb_not_nan in Hc as [_ ?].
Qed.

Lemma filter_all {A} (P : A → Prop) `{∀ x, Decision (P x)} (l : list A) :
  Forall P l → filter P l = l.
Proof.
  induction 1 as [|x l Hx _ IH]; [done|].
  by rewrite filter_cons, decide_True, IH.
Qed.

Lemma filter_none {A} (P : A → Prop) `{∀ x, Decision (P x)} (l : list A) :
  Forall (λ x, ¬ P x) l → filter P l = [].
Proof.
  induction 1 as [|x l Hx _ IH]; [done|].
  by rewrite filter_cons, decide_False.
Qed.

(** [sort_values] puts a shuffled recording back in time order *)
Lemma sort_values_canonical df by_col i sorted :
  column_index df by_col = Ok i →
  rows df ≡ₚ sorted →
  StronglySorted (λ a b, (cell i a <? cell i b)%float = true) sorted →
  sort_values np df by_col = Ok {| columns := columns df; rows := sorted |}.
Proof.
  intros Hi Hperm Hsorted. unfold sort_values. rewrite Hi, bind_Ok.
  cbv zeta. do 2 f_equal.
  destruct (Nat.le_gt_cases 2 (length sorted)) as [Hlen|Hlen].
  - assert (Forall (λ r, is_nan (cell i r) = false) (rows df)) as Hnum.
    { rewrite Hperm. by apply sorted_no_nan. }
    rewrite filter_all by done.
    rewrite filter_none, app_nil_r.
    + apply (ascending_unique (cell i)); [|done|].
      * apply leb_sorted_strongly, take_rows_ascending, argsort_ascending.
        by apply Forall_fmap.
      * rewrite take_rows_perm; [done|].
        by rewrite argsort_perm, length_fmap.
    + eapply Forall_impl; [exact Hnum|]. simpl. intros r Hr. by rewrite Hr.
  - assert (∀ l : list (list float),
              take_rows l (argsort np (cell i <$> l)) ≡ₚ l) as Htake.
    { intros l. apply take_rows_perm. by rewrite argsort_perm, length_fmap. }
    destruct sorted as [|r [|r' sorted]]; simpl in Hlen; [| |lia].
    + apply Permutation_nil_r in Hperm. rewrite Hperm.
      rewrite !filter_nil, app_nil_r. apply Permutation_nil_r, Htake.
    + apply Permutation_singleton_r in Hperm. rewrite Hperm.
      rewrite !filter_cons, !filter_nil.
      destruct (is_nan (cell i r)) eqn:Hr.
      * rewrite decide_False, decide_True by done.
        by rewrite (proj1 (Permutation_nil_r _) (Htake [])).
      * rewrite decide_True, decide_False by done.
        by rewrite (proj1 (Permutation_singleton_r _ _) (Htake [r])).
Qed.

Lemma find_column_ext df1 df2 names :
  columns df1 = columns df2 → _find_column df1 names = _find_column df2 names.
Proof.
  intros Hcols. induction names as [|n names IH]; simpl; [done|].
  by rewrite Hcols, IH.
Qed.

(** a shuffled copy of a chronological table sorts back to it *)
Lemma sort_values_shuffled df ordered :
  columns df = columns ordered →
  rows df ≡ₚ rows ordered →
  chronological ordered →
  sort_values np df (_find_column df time_names) = Ok ordered
  ∧ sort_values np ordered (_find_column ordered time_names) = Ok ordered.
Proof.
  intros Hcols Hrows [Ht Hsorted].
  destruct (column_index_Ok ordered (_find_column ordered time_names))
    as [i Hi]; [by apply find_column_in|].
  unfold time_of in Hsorted. rewrite Hi in Hsorted.
  rewrite (find_column_ext df ordered) by done.
  split.
  - rewrite (sort_values_canonical df _ i (rows ordered)); try done.
    + rewrite Hcols. by destruct ordered.
    + unfold column_index in *. by rewrite Hcols.
  - rewrite (sort_values_canonical ordered _ i (rows ordered)); try done.
    by destruct ordered.
Qed.

(** *** Raising the threshold *)

Lemma turn_step_antitone low high xs ys c_low c_high i :
  (low <=? high)%float = true →
  (2 ≤ i < length xs)%nat → length xs = length ys →
  c_high ≤ c_low →
  ∃ c_low' c_high',
    turn_step np low xs ys c_low i = Ok c_low'
    ∧ turn_step np high xs ys c_high i = Ok c_high'
    ∧ c_high' ≤ c_low'.
Proof.
  intros Hth Hi Hlen Hc. unfold turn_step.
  destruct (item_Ok xs (i - 1)) as [x1 ->]; [lia|].
  destruct (item_Ok xs (i - 2)) as [x0 ->]; [lia|].
  destruct (item_Ok ys (i - 1)) as [y1 ->]; [lia|].
  destruct (item_Ok ys (i - 2)) as [y0 ->]; [lia|].
  destruct (item_Ok xs i) as [x2 ->]; [lia|].
  destruct (item_Ok ys i) as [y2 ->]; [lia|].
  rewrite !bind_Ok. cbv zeta beta iota.
  destruct (_ && _); [|by exists c_low, c_high].
  match goal with
  | |- context [(high <=? ?angle)%float] =>
      destruct (high <=? angle)%float eqn:Hhigh;
      [rewrite (leb_trans low high angle Hth Hhigh)
      |destruct (low <=? angle)%float]
  end; do 2 eexists; (split; [done|]); (split; [done|]); lia.
Qed.

Lemma turn_steps_antitone low high xs ys c_low c_high l :
  (low <=? high)%float = true →
  Forall (λ i, (2 ≤ i < length xs)%nat) l → length xs = length ys →
  c_high ≤ c_low →
  ∃ c_low' c_high',
    fold_result (turn_step np low xs ys) c_low l = Ok c_low'
    ∧ fold_result (turn_step np high xs ys) c_high l = Ok c_high'
    ∧ c_high' ≤ c_low'.
Proof.
  intros Hth Hl Hlen. revert c_low c_high.
  induction Hl as [|i l Hi _ IH]; intros c_low c_high Hc; simpl.
  - by exists c_low, c_high.
  - destruct (turn_step_antitone low high xs ys c_low c_high i)
      as (c1 & c2 & -> & -> & Hc'); try done.
    rewrite !bind_Ok. by apply IH.
Qed.

(** the structure of a run of [calculate_max_speed] on a table with
    coordinates and times *)
Lemma max_speed_run df :
  (2 ≤ len df)%nat →
  truthy (_find_column df x_names) = true →
  truthy (_find_column df y_names) = true →
  truthy (_find_column df time_names) = true →
  ∃ df' xs ys ts,
    sort_values np df (_find_column df time_names) = Ok df'
    ∧ rows df' ≡ₚ rows df
    ∧ values df' (_find_column df x_names) = Ok xs
    ∧ values df' (_find_column df y_names) = Ok ys
    ∧ values df' (_find_column df time_names) = Ok ts
    ∧ calculate_max_speed np df
      = Ok match segment_speeds np xs ys ts with
           | [] => 0%float
           | v :: vs => fmax v vs
           end.
Proof.
  intros Hlen Hx Hy Ht.
  destruct (sort_values_Ok np df (_find_column df time_names))
    as (df' & Hsort & Hcols & Hrows); [by apply find_column_in|].
  destruct (found_values df df' x_names Hx Hcols) as [i Hxs].
  destruct (found_values df df' y_names Hy Hcols) as [j Hys].
  destruct (found_values df df' time_names Ht Hcols) as [k Hts].
  exists df', (cell i <$> rows df'), (cell j <$> rows df'),
    (cell k <$> rows df').
  repeat split; try done.
  unfold calculate_max_speed.
  destruct (Nat.ltb_spec (len df) 2) as [?|_]; [lia|]. cbv zeta.
  rewrite Hx, Hy, Ht. simpl negb. cbv iota.
  rewrite Hsort, bind_Ok, Hxs, bind_Ok, Hys, bind_Ok, Hts, bind_Ok.
  rewrite speeds_path by (by rewrite !length_fmap).
  rewrite bind_Ok, app_nil_l. by destruct (segment_speeds _ _ _ _).
Qed.

End KinematicFacts.

Section KinematicMetrics.
Import Movement.
Variable np : NumLib.

(** X13. On every table, whatever its size and columns and whatever the
    numeric library computes, the four float-valued metrics return a
    number: neither a missing column nor an index out of range can
    occur. *)
Theorem kinematic_metrics_never_raise (df : DataFrame) :
  is_table df →
  (∃ v, calculate_total_distance np df = Ok v)
  ∧ (∃ v, calculate_average_speed np df = Ok v)
  ∧ (∃ v, calculate_max_speed np df = Ok v)
  ∧ (∃ v, _calculate_lateral_movement df = Ok v).
Proof.
  intros _. split; [|split; [|split]].
  - apply total_distance_Ok.
  - apply average_speed_Ok.
  - apply max_speed_Ok.
  - apply lateral_movement_Ok.
Qed.

(** X14. [calculate_direction_changes] always returns a count, and the
    count lies between 0 and the number of interior samples, [len - 2]
    (0 for fewer than three samples), for every threshold. *)
Theorem direction_changes_bounds (df : DataFrame) (threshold : float) :
  is_table df →
  ∃ n, calculate_direction_changes np df threshold = Ok n
       ∧ 0 ≤ n ≤ Z.of_nat (len df - 2).
Proof.
  intros _. unfold calculate_direction_changes.
  destruct (Nat.ltb_spec (len df) 3) as [Hlt|Hge];
    [exists 0; split; [done|lia]|]. cbv zeta.
  destruct (truthy (_find_column df x_names)) eqn:Hx;
    [|exists 0; split; [done|lia]].
  destruct (truthy (_find_column df y_names)) eqn:Hy;
    [|exists 0; split; [done|lia]].
  simpl negb. cbv iota.
  destruct (found_sorted_if np df time_names) as (df' & Hsort & Hcols & Hrows).
  destruct (found_values df df' x_names Hx Hcols) as [i Hxs].
  destruct (found_values df df' y_names Hy Hcols) as [j Hys].
  rewrite Hsort, bind_Ok, Hxs, bind_Ok, Hys, bind_Ok.
  destruct (turn_steps_Ok np threshold (cell i <$> rows df')
              (cell j <$> rows df') 0
              (seq 2 (length (cell i <$> rows df') - 2))) as (n & -> & Hn).
  - apply seq_bounds. rewrite length_fmap, Hrows. unfold len in Hge. lia.
  - by rewrite !length_fmap.
  - exists n. split; [done|].
    rewrite length_seq, length_fmap, Hrows in Hn. unfold len. lia.
Qed.

(** X15. A table that lacks every alias of the x coordinate, or every
    alias of the y coordinate, yields 0 for the total distance, the
    average speed, the maximum speed and the direction changes; lacking
    x alone already makes the lateral movement 0. *)
Theorem missing_coordinates_defaults (df : DataFrame) (threshold : float) :
  is_table df →
  lacks df x_names ∨ lacks df y_names →
  calculate_total_distance np df = Ok 0%float
  ∧ calculate_average_speed np df = Ok 0%float
  ∧ calculate_max_speed np df = Ok 0%float
  ∧ calculate_direction_changes np df threshold = Ok 0
  ∧ (lacks df x_names → _calculate_lateral_movement df = Ok 0%float).
Proof.
  intros _ Hlacks. split; [|split; [|split; [|split]]].
  - by apply total_distance_lacks.
  - destruct (Nat.ltb_spec (len df) 2) as [Hlt|Hge];
      [by apply average_speed_short|].
    destruct (truthy (_find_column df time_names)) eqn:Ht;
      [|by apply average_speed_no_time].
    destruct (average_speed_run np df Hge Ht)
      as (d & df' & ts & t0 & tl & Hd & _ & _ & _ & _ & ->).
    rewrite total_distance_lacks in Hd by done. injection Hd as <-.
    unfold calculate_speed.
    destruct (0 <? tl - t0)%float eqn:Hpos; [|done].
    by rewrite div_zero_pos.
  - apply max_speed_lacks. tauto.
  - by apply direction_changes_lacks.
  - intros Hx. unfold _calculate_lateral_movement.
    destruct (_ <? _)%nat; [done|]. cbv zeta.
    by rewrite (find_column_none _ _ Hx).
Qed.

(** X16. A recording with strictly increasing time stamps, at least
    two samples and both coordinates, stored in any row order: the total
    distance is the left-to-right sum of the distances between each
    sample and the next one in time order, that is, along the columns of
    the recording in time order. *)
Theorem total_distance_path_length (df ordered : DataFrame) :
  is_table ordered →
  chronological ordered →
  columns df = columns ordered →
  rows df ≡ₚ rows ordered →
  (2 ≤ len ordered)%nat →
  truthy (_find_column ordered x_names) = true →
  truthy (_find_column ordered y_names) = true →
  ∃ xs ys,
    values ordered (_find_column ordered x_names) = Ok xs
    ∧ values ordered (_find_column ordered y_names) = Ok ys
    ∧ calculate_total_distance np df
      = Ok (fsum (consecutive_distances np xs ys)).
Proof.
  intros _ Hchrono Hcols Hrows Hlen Hx Hy.
  destruct (sort_values_shuffled np df ordered Hcols Hrows Hchrono) as [Hsort _].
  assert (∀ names, _find_column df names = _find_column ordered names) as Hfc
    by (intros names; by apply find_column_ext).
  assert (len df = len ordered) as Hlen' by (unfold len; by rewrite Hrows).
  rewrite <- !Hfc in Hx, Hy. rewrite <- Hlen' in Hlen.
  destruct (total_distance_run np df Hlen Hx Hy)
    as (df' & xs & ys & Hsorted & _ & Hxs & Hys & _ & _ & Hrun).
  unfold sorted_if in Hsorted. destruct Hchrono as [Ht _].
  rewrite Hfc, Ht, <- Hfc, Hsort in Hsorted. injection Hsorted as <-.
  exists xs, ys. by rewrite <- !Hfc.
Qed.

(** X17. [_calculate_lateral_movement] never looks at the time column:
    on a table with at least two samples and an x column it returns the
    sum of the absolute x differences between each row and the next one
    in the order in which the rows are stored. *)
Theorem lateral_movement_stored_order (df : DataFrame) :
  is_table df →
  (2 ≤ len df)%nat →
  truthy (_find_column df x_names) = true →
  ∃ xs, values df (_find_column df x_names) = Ok xs
        ∧ _calculate_lateral_movement df
          = Ok (fsum (consecutive_x_deltas xs)).
Proof.
  intros _ Hlen Hx.
  destruct (lateral_movement_run df Hlen Hx) as (xs & H1 & _ & H2).
  by exists xs.
Qed.

(** X18. Without any alias of the time column the speeds cannot be
    measured: the average and the maximum speed are 0, and the total
    distance is measured along the rows as they are stored. *)
Theorem missing_time_defaults (df : DataFrame) :
  is_table df →
  lacks df time_names →
  calculate_average_speed np df = Ok 0%float
  ∧ calculate_max_speed np df = Ok 0%float
  ∧ ((2 ≤ len df)%nat →
     truthy (_find_column df x_names) = true →
     truthy (_find_column df y_names) = true →
     ∃ xs ys,
       values df (_find_column df x_names) = Ok xs
       ∧ values df (_find_column df y_names) = Ok ys
       ∧ calculate_total_distance np df
         = Ok (fsum (consecutive_distances np xs ys))).
Proof.
  intros _ Ht. split; [|split].
  - apply average_speed_no_time. by rewrite (find_column_none _ _ Ht).
  - apply max_speed_lacks. tauto.
  - intros Hlen Hx Hy.
    destruct (total_distance_run np df Hlen Hx Hy)
      as (df' & xs & ys & Hsort & _ & Hxs & Hys & _ & _ & Hrun).
    rewrite (find_column_none _ _ Ht) in Hsort. injection Hsort as <-.
    by exists xs, ys.
Qed.

(** X19. For a recording with strictly increasing time stamps and at
    least two samples, stored in any row order, the average speed is
    what [calculate_speed] gives for the total distance and the time
    elapsed between the first and the last sample in time order: their
    quotient when the elapsed time is positive, and 0 otherwise. *)
Theorem average_speed_composition (df ordered : DataFrame) :
  is_table ordered →
  chronological ordered →
  columns df = columns ordered →
  rows df ≡ₚ rows ordered →
  (2 ≤ len ordered)%nat →
  ∃ d ts t_first t_last,
    calculate_total_distance np ordered = Ok d
    ∧ values ordered (_find_column ordered time_names) = Ok ts
    ∧ head ts = Some t_first ∧ last ts = Some t_last
    ∧ calculate_average_speed np df
      = Ok (calculate_speed d (t_last - t_first)).
Proof.
  intros _ Hchrono Hcols Hrows Hlen.
  destruct (sort_values_shuffled np df ordered Hcols Hrows Hchrono)
    as [Hsort Hsort'].
  assert (∀ names, _find_column df names = _find_column ordered names) as Hfc
    by (intros names; by apply find_column_ext).
  assert (len df = len ordered) as Hlen' by (unfold len; by rewrite Hrows).
  assert (calculate_total_distance np df = calculate_total_distance np ordered)
    as Htotal.
  { destruct Hchrono as [Ht _]. unfold calculate_total_distance, sorted_if.
    rewrite Hfc in Hsort. by rewrite !Hfc, Hlen', Ht, Hsort, Hsort'. }
  destruct Hchrono as [Ht _].
  rewrite <- Hfc in Ht. rewrite <- Hlen' in Hlen.
  destruct (average_speed_run np df Hlen Ht)
    as (d & df' & ts & t0 & tl & Hd & Hsorted & Hts & Hhead & Hlast & Hrun).
  rewrite Hsort in Hsorted. injection Hsorted as <-.
  exists d, ts, t0, tl. rewrite <- Htotal, <- !Hfc. done.
Qed.

(** X20. For a recording with strictly increasing time stamps, both
    coordinates and at least two samples, stored in any row order, the
    maximum speed is taken over the steps between consecutive samples in
    time order that take a positive time: it is the speed of one of
    these steps and no step's speed is greater (and it is 0 if there is
    no such step). *)
Theorem max_speed_is_maximum (df ordered : DataFrame) :
  is_table ordered →
  chronological ordered →
  columns df = columns ordered →
  rows df ≡ₚ rows ordered →
  (2 ≤ len ordered)%nat →
  truthy (_find_column ordered x_names) = true →
  truthy (_find_column ordered y_names) = true →
  ∃ xs ys ts m,
    values ordered (_find_column ordered x_names) = Ok xs
    ∧ values ordered (_find_column ordered y_names) = Ok ys
    ∧ values ordered (_find_column ordered time_names) = Ok ts
    ∧ calculate_max_speed np df = Ok m
    ∧ (segment_speeds np xs ys ts = [] → m = 0%float)
    ∧ (segment_speeds np xs ys ts ≠ [] → m ∈ segment_speeds np xs ys ts)
    ∧ ∀ v, v ∈ segment_speeds np xs ys ts → (m <? v)%float = false.
Proof.
  intros _ Hchrono Hcols Hrows Hlen Hx Hy.
  destruct (sort_values_shuffled np df ordered Hcols Hrows Hchrono) as [Hsort _].
  assert (∀ names, _find_column df names = _find_column ordered names) as Hfc
    by (intros names; by apply find_column_ext).
  assert (len df = len ordered) as Hlen' by (unfold len; by rewrite Hrows).
  destruct Hchrono as [Ht _].
  rewrite <- !Hfc in Hx, Hy, Ht. rewrite <- Hlen' in Hlen.
  destruct (max_speed_run np df Hlen Hx Hy Ht)
    as (df' & xs & ys & ts & Hsorted & _ & Hxs & Hys & Hts & Hrun).
  rewrite Hsort in Hsorted. injection Hsorted as <-.
  exists xs, ys, ts. rewrite <- !Hfc.
  destruct (segment_speeds np xs ys ts) as [|v vs].
  - exists 0%float. repeat split; try done. intros v Hv. by inversion Hv.
  - exists (fmax v vs). destruct (fmax_spec v vs) as (Hin & _ & Hmax).
    repeat split; done.
Qed.

(** X21. A recording with strictly increasing time stamps can be stored
    in any row order: on every table with the same columns and the same
    rows in some other order, the total distance, the average speed, the
    maximum speed and the direction changes are those of the recording
    in time order. *)
Theorem shuffled_recording_same_metrics
    (df ordered : DataFrame) (threshold : float) :
  is_table ordered →
  chronological ordered →
  columns df = columns ordered →
  rows df ≡ₚ rows ordered →
  calculate_total_distance np df = calculate_total_distance np ordered
  ∧ calculate_average_speed np df = calculate_average_speed np ordered
  ∧ calculate_max_speed np df = calculate_max_speed np ordered
  ∧ calculate_direction_changes np df threshold
    = calculate_direction_changes np ordered threshold.
Proof.
  intros _ Hchrono Hcols Hrows.
  destruct (sort_values_shuffled np df ordered Hcols Hrows Hchrono) as [Hs1 Hs2].
  destruct Hchrono as [Ht _].
  assert (∀ names, _find_column df names = _find_column ordered names) as Hfc
    by (intros names; by apply find_column_ext).
  assert (len df = len ordered) as Hlen by (unfold len; by rewrite Hrows).
  rewrite Hfc in Hs1.
  assert (calculate_total_distance np df = calculate_total_distance np ordered)
    as Htotal.
  { unfold calculate_total_distance, sorted_if.
    by rewrite !Hfc, Hlen, Ht, Hs1, Hs2. }
  split; [done|]. split; [|split].
  - unfold calculate_average_speed.
    by rewrite Htotal, !Hfc, Hlen, Ht, Hs1, Hs2.
  - unfold calculate_max_speed. by rewrite !Hfc, Hlen, Hs1, Hs2.
  - unfold calculate_direction_changes, sorted_if.
    by rewrite !Hfc, Hlen, Ht, Hs1, Hs2.
Qed.

(** X22. Raising the threshold never raises the count: for thresholds
    [low <= high], the direction changes counted with [high] are at
    most those counted with [low]. *)
Theorem direction_changes_antitone (df : DataFrame) (low high : float) :
  is_table df →
  (low <=? high)%float = true →
  ∃ n_low n_high,
    calculate_direction_changes np df low = Ok n_low
    ∧ calculate_direction_changes np df high = Ok n_high
    ∧ n_high ≤ n_low.
Proof.
  intros _ Hth. unfold calculate_direction_changes.
  destruct (Nat.ltb_spec (len df) 3) as [Hlt|Hge]; [by exists 0, 0|].
  cbv zeta.
  destruct (truthy (_find_column df x_names)) eqn:Hx; [|by exists 0, 0].
  destruct (truthy (_find_column df y_names)) eqn:Hy; [|by exists 0, 0].
  simpl negb. cbv iota.
  destruct (found_sorted_if np df time_names) as (df' & Hsort & Hcols & Hrows).
  destruct (found_values df df' x_names Hx Hcols) as [i Hxs].
  destruct (found_values df df' y_names Hy Hcols) as [j Hys].
  rewrite Hsort, !bind_Ok, Hxs, !bind_Ok, Hys, !bind_Ok.
  apply turn_steps_antitone; try done.
  - apply seq_bounds. rewrite length_fmap, Hrows. unfold len in Hge. lia.
  - by rewrite !length_fmap.
Qed.

End KinematicMetrics.

(** ** A reference numeric library

    A library to run the metrics on: it squares by multiplying, takes
    norms and dot products term by term, tells a straight line (0
    degrees) from anything else (90 degrees), and sorts by insertion. *)

Lemma SFcompare_None a b :
  SFcompare a b = None → a = S754_nan ∨ b = S754_nan.
Proof. destruct a as [[]|[]| |[] ? ?], b as [[]|[]| |[] ? ?]; simpl; auto; done. Qed.

Lemma leb_total (a b : float) :
  is_nan a = false → is_nan b = false →
  (a <=? b)%float = false → (b <=? a)%float = true.
Proof.
  unfold is_nan. rewrite !FloatAxioms.eqb_spec, !FloatAxioms.leb_spec.
  unfold SFeqb, SFleb. intros Ha Hb.
  rewrite (SFcompare_antisym (Prim2SF a) (Prim2SF b)).
  destruct (SFcompare (Prim2SF a) (Prim2SF b)) as [[]|] eqn:Hc; simpl;
    try done.
  apply SFcompare_None in Hc as [Hc|Hc]; rewrite Hc in *; simpl in *; done.
Qed.

Lemma insert_asc_perm key i l : insert_asc key i l ≡ₚ i :: l.
Proof.
  induction l as [|j l IH]; simpl; [done|].
  destruct (key i <=? key j)%float; [done|].
  rewrite IH. apply Permutation_swap.
Qed.

Lemma insert_asc_head (key : nat → float) i j l :
  (key j <=? key i)%float = true →
  HdRel (λ a b, (key a <=? key b)%float = true) j l →
  HdRel (λ a b, (key a <=? key b)%float = true) j (insert_asc key i l).
Proof.
  intros Hji Hl. destruct l as [|k l]; simpl; [by constructor|].
  destruct (key i <=? key k)%float; constructor; [done|]. by inversion Hl.
Qed.

Lemma insert_asc_sorted (key : nat → float) i l :
  Forall (λ j, is_nan (key j) = false) (i :: l) →
  Sorted (λ a b, (key a <=? key b)%float = true) l →
  Sorted (λ a b, (key a <=? key b)%float = true) (insert_asc key i l).
Proof.
  intros Hnum Hl. apply Forall_cons in Hnum as [Hi Hnum].
  induction Hl as [|j l Hl IH Hj]; simpl; [by repeat constructor|].
  apply Forall_cons in Hnum as [Hj' Hnum].
  destruct (key i <=? key j)%float eqn:Hij; [by repeat constructor|].
  constructor; [by apply IH|].
  apply insert_asc_head; [|done]. by apply leb_total.
Qed.

Lemma insertion_argsort_perm keys :
  insertion_argsort keys ≡ₚ seq 0 (length keys).
Proof.
  unfold insertion_argsort.
  induction (seq 0 (length keys)) as [|i l IH]; simpl; [done|].
  by rewrite insert_asc_perm, IH.
Qed.

Lemma insertion_argsort_ascending keys :
  Forall (λ k, is_nan k = false) keys →
  Movement.ascending keys (insertion_argsort keys).
Proof.
  intros Hnum. unfold Movement.ascending, insertion_argsort.
  assert (Forall (λ j, is_nan (nth j keys nan) = false) (seq 0 (length keys)))
    as Hseq.
  { apply Forall_forall. intros j Hj%elem_of_seq.
    destruct (lookup_lt_is_Some_2 keys j) as [k Hk]; [lia|].
    rewrite nth_lookup, Hk. simpl. exact (Forall_lookup_1 _ _ _ _ Hnum Hk). }
  induction Hseq as [|i l Hi Hl IH]; simpl; [constructor|].
  apply insert_asc_sorted; [|done]. constructor; [done|].
  clear IH. induction l as [|j l IHl]; simpl; [constructor|].
  apply Forall_cons in Hl as [Hj Hl].
  rewrite insert_asc_perm. constructor; [done|]. by apply IHl.
Qed.

Definition plain_np : Movement.NumLib :=
  {| Movement.pow2 := λ x, (x * x)%float;
     Movement.norm2 := λ a b, sqrt (a * a + b * b)%float;
     Movement.dot2 := λ a b c d, (a * c + b * d)%float;
     Movement.arccos_degrees :=
       λ c, if (c <? 1)%float then 90%float else 0%float;
     Movement.argsort := insertion_argsort;
     Movement.argsort_perm := insertion_argsort_perm;
     Movement.argsort_ascending := insertion_argsort_ascending |}.

Ltac table_check :=
  unfold is_table, lacks; apply (bool_decide_unpack _); by vm_compute.

Lemma kinematic_metrics_never_raise_witness :
  is_table shuffled_df
  ∧ (∃ v, Movement.calculate_total_distance plain_np shuffled_df = Ok v)
  ∧ (∃ v, Movement.calculate_average_speed plain_np shuffled_df = Ok v)
  ∧ (∃ v, Movement.calculate_max_speed plain_np shuffled_df = Ok v)
  ∧ (∃ v, Movement._calculate_lateral_movement shuffled_df = Ok v).
Proof.
  assert (is_table shuffled_df) as Htable by table_check.
  split; [done|]. by apply (kinematic_metrics_never_raise plain_np shuffled_df).
Defined.

Lemma direction_changes_bounds_witness :
  is_table turning_df
  ∧ ∃ n, Movement.calculate_direction_changes plain_np turning_df 45 = Ok n
         ∧ 0 ≤ n ≤ Z.of_nat (Movement.len turning_df - 2).
Proof.
  assert (is_table turning_df) as Htable by table_check.
  split; [done|]. by apply (direction_changes_bounds plain_np turning_df 45).
Defined.

Lemma missing_coordinates_defaults_witness :
  is_table no_xy_df
  ∧ (lacks no_xy_df Movement.x_names ∨ lacks no_xy_df Movement.y_names)
  ∧ Movement.calculate_total_distance plain_np no_xy_df = Ok 0%float
  ∧ Movement.calculate_average_speed plain_np no_xy_df = Ok 0%float
  ∧ Movement.calculate_max_speed plain_np no_xy_df = Ok 0%float
  ∧ Movement.calculate_direction_changes plain_np no_xy_df 45 = Ok 0.
Proof.
  assert (is_table no_xy_df) as Htable by table_check.
  assert (lacks no_xy_df Movement.x_names) as Hx by table_check.
  split; [done|]. split; [by left|].
  destruct (missing_coordinates_defaults plain_np no_xy_df 45 Htable
              (or_introl Hx)) as (H1 & H2 & H3 & H4 & _).
  done.
Defined.

Lemma total_distance_path_length_witness :
  is_table ordered_df
  ∧ chronological ordered_df
  ∧ Movement.rows shuffled_df ≡ₚ Movement.rows ordered_df
  ∧ ∃ xs ys,
      Movement.values ordered_df "x" = Ok xs
      ∧ Movement.values ordered_df "y" = Ok ys
      ∧ Movement.calculate_total_distance plain_np shuffled_df
        = Ok (Movement.fsum (consecutive_distances plain_np xs ys)).
Proof.
  assert (is_table ordered_df) as Htable by table_check.
  assert (chronological ordered_df) as Hchrono.
  { split; [reflexivity|]. repeat constructor. }
  assert (Movement.rows shuffled_df ≡ₚ Movement.rows ordered_df) as Hrows
    by (simpl; apply perm_skip, perm_swap).
  split; [done|]. split; [done|]. split; [done|].
  apply (total_distance_path_length plain_np shuffled_df ordered_df Htable);
    [done|reflexivity|done|vm_compute; lia|reflexivity|reflexivity].
Defined.

Lemma lateral_movement_stored_order_witness :
  is_table shuffled_df
  ∧ (2 ≤ Movement.len shuffled_df)%nat
  ∧ ∃ xs, Movement.values shuffled_df "x" = Ok xs
          ∧ Movement._calculate_lateral_movement shuffled_df
            = Ok (Movement.fsum (consecutive_x_deltas xs)).
Proof.
  assert (is_table shuffled_df) as Htable by table_check.
  split; [done|]. split; [vm_compute; lia|].
  apply (lateral_movement_stored_order shuffled_df Htable);
    [vm_compute; lia|reflexivity].
Defined.

Lemma missing_time_defaults_witness :
  is_table {| Movement.columns := ["x"; "y"];
              Movement.rows := [[0; 0]; [3; 4]]%float |}
  ∧ lacks {| Movement.columns := ["x"; "y"];
             Movement.rows := [[0; 0]; [3; 4]]%float |} Movement.time_names
  ∧ Movement.calculate_average_speed plain_np
      {| Movement.columns := ["x"; "y"];
         Movement.rows := [[0; 0]; [3; 4]]%float |} = Ok 0%float
  ∧ Movement.calculate_max_speed plain_np
      {| Movement.columns := ["x"; "y"];
         Movement.rows := [[0; 0]; [3; 4]]%float |} = Ok 0%float.
Proof.
  set (df := {| Movement.columns := ["x"; "y"];
                Movement.rows := [[0; 0]; [3; 4]]%float |}).
  assert (is_table df) as Htable by table_check.
  assert (lacks df Movement.time_names) as Ht by table_check.
  split; [done|]. split; [done|].
  destruct (missing_time_defaults plain_np df Htable Ht) as (H1 & H2 & _).
  done.
Defined.

Lemma average_speed_composition_witness :
  is_table ordered_df
  ∧ chronological ordered_df
  ∧ Movement.rows shuffled_df ≡ₚ Movement.rows ordered_df
  ∧ ∃ d ts t_first t_last,
      Movement.calculate_total_distance plain_np ordered_df = Ok d
      ∧ Movement.values ordered_df "time" = Ok ts
      ∧ head ts = Some t_first ∧ last ts = Some t_last
      ∧ Movement.calculate_average_speed plain_np shuffled_df
        = Ok (Movement.calculate_speed d (t_last - t_first)).
Proof.
  assert (is_table ordered_df) as Htable by table_check.
  assert (chronological ordered_df) as Hchrono.
  { split; [reflexivity|]. repeat constructor. }
  assert (Movement.rows shuffled_df ≡ₚ Movement.rows ordered_df) as Hrows
    by (simpl; apply perm_skip, perm_swap).
  split; [done|]. split; [done|]. split; [done|].
  apply (average_speed_composition plain_np shuffled_df ordered_df Htable);
    [done|reflexivity|done|vm_compute; lia].
Defined.

Lemma max_speed_is_maximum_witness :
  is_table ordered_df
  ∧ chronological ordered_df
  ∧ Movement.rows shuffled_df ≡ₚ Movement.rows ordered_df
  ∧ ∃ xs ys ts m,
      Movement.values ordered_df "x" = Ok xs
      ∧ Movement.values ordered_df "y" = Ok ys
      ∧ Movement.values ordered_df "time" = Ok ts
      ∧ Movement.calculate_max_speed plain_np shuffled_df = Ok m
      ∧ (segment_speeds plain_np xs ys ts = [] → m = 0%float)
      ∧ (segment_speeds plain_np xs ys ts ≠ []
         → m ∈ segment_speeds plain_np xs ys ts)
      ∧ ∀ v, v ∈ segment_speeds plain_np xs ys ts → (m <? v)%float = false.
Proof.
  assert (is_table ordered_df) as Htable by table_check.
  assert (chronological ordered_df) as Hchrono.
  { split; [reflexivity|]. repeat constructor. }
  assert (Movement.rows shuffled_df ≡ₚ Movement.rows ordered_df) as Hrows
    by (simpl; apply perm_skip, perm_swap).
  split; [done|]. split; [done|]. split; [done|].
  apply (max_speed_is_maximum plain_np shuffled_df ordered_df Htable);
    [done|reflexivity|done|vm_compute; lia|reflexivity|reflexivity].
Defined.

Lemma shuffled_recording_same_metrics_witness :
  is_table ordered_df
  ∧ chronological ordered_df
  ∧ Movement.rows shuffled_df ≡ₚ Movement.rows ordered_df
  ∧ Movement.calculate_total_distance plain_np shuffled_df
    = Movement.calculate_total_distance plain_np ordered_df
  ∧ Movement.calculate_average_speed plain_np shuffled_df
    = Movement.calculate_average_speed plain_np ordered_df
  ∧ Movement.calculate_max_speed plain_np shuffled_df
    = Movement.calculate_max_speed plain_np ordered_df
  ∧ Movement.calculate_direction_changes plain_np shuffled_df 45
    = Movement.calculate_direction_changes plain_np ordered_df 45.
Proof.
  assert (is_table ordered_df) as Htable by table_check.
  assert (chronological ordered_df) as Hchrono.
  { split; [reflexivity|]. repeat constructor. }
  assert (Movement.rows shuffled_df ≡ₚ Movement.rows ordered_df) as Hrows
    by (simpl; apply perm_skip, perm_swap).
  split; [done|]. split; [done|]. split; [done|].
  by apply (shuffled_recording_same_metrics plain_np shuffled_df ordered_df 45).
Defined.

Lemma direction_changes_antitone_witness :
  is_table turning_df
  ∧ (45 <=? 100)%float = true
  ∧ ∃ n_low n_high,
      Movement.calculate_direction_changes plain_np turning_df 45 = Ok n_low
      ∧ Movement.calculate_direction_changes plain_np turning_df 100
        = Ok n_high
      ∧ n_high ≤ n_low.
Proof.
  assert (is_table turning_df) as Htable by table_check.
  split; [done|]. split; [reflexivity|].
  by apply (direction_changes_antitone plain_np turning_df 45 100).
Defined.

(** the metrics of the two sample tables: sorting by time makes the
    distance of the shuffled table that of the ordered one, while the
    lateral movement follows the stored order *)
Example sample_metrics :
  Movement.calculate_total_distance plain_np shuffled_df = Ok 10%float
  ∧ Movement.calculate_total_distance plain_np ordered_df = Ok 10%float
  ∧ Movement.calculate_average_speed plain_np shuffled_df = Ok 5%float
  ∧ Movement.calculate_max_speed plain_np shuffled_df = Ok 5%float
  ∧ Movement.calculate_direction_changes plain_np shuffled_df 45 = Ok 0
  ∧ Movement.calculate_direction_changes plain_np turning_df 45 = Ok 1
  ∧ Movement.calculate_direction_changes plain_np turning_df 100 = Ok 0
  ∧ Movement._calculate_lateral_movement ordered_df = Ok 6%float
  ∧ Movement._calculate_lateral_movement shuffled_df = Ok 9%float.
Proof. repeat split; by vm_compute. Qed.
